(** * hw-shell: the command interpreter of [src/hw-shell/shell.c]

    A shallow embedding of [shell.c] over a small model of the POSIX
    process interface it programs against: a descriptor table, open file
    descriptions with shared offsets, regular files, character streams
    (terminal, pipes), the working directory and the [PATH] variable.

    Conventions of the embedding.
    - [int] and [size_t] values are [Z]; [size_t] arithmetic wraps modulo
      [2^64], [int] increments wrap modulo [2^32].
    - A [char*] that may be [NULL] is an [option string].
    - stdio as at a terminal: [fgets] on [stdin] takes descriptor 0 up to
      the end of the line (a terminal delivers one line to a [read]; the
      read-ahead of stdio on a pipe or a file is not modelled), and
      [printf]/[fprintf(stdout, ...)] write descriptor 1 at once.  The
      buffer of [stdout], which holds the output back when descriptor 1 is
      not a terminal and is copied by [fork], is added in a second
      embedding of the same text, [buffered_main].
    - The process may access every file, and every directory on the way to
      a name exists: [open] fails on a missing file without [O_CREAT] and
      on a directory asked for writing or creation, and on nothing else.
      The statements about lines with a redirection take the result of
      [open] as a hypothesis.
    - [fork] always succeeds.  A launched program is a filter: it reads a
      prefix of what its standard input holds and writes bytes to its
      standard output; nothing else of the machine is touched by it.
    - Where the C text has no defined behaviour (a [NULL] passed to
      [strcat], the 128-byte candidate buffer overrun, a zero-length
      argument array), the child ends as [Undefined] and leaves the shared
      state as it found it. *)

From stdpp Require Import gmap strings list fin_maps pretty.
From Stdlib Require Import ZArith Strings.Byte Strings.Ascii.

Open Scope Z_scope.

Abbreviation bytes := (list byte).

(** Bytes of a C string literal or of a [%s] argument. *)
Definition str (s : string) : bytes := Stdlib.Strings.String.list_byte_of_string s.

Definition newline : byte := x0a.
Definition nul : byte := x00.

(** ** The machine *)

Inductive object :=
| File (name : string)
| Chan (id : nat)
| Dir (name : string).

(** An open file description: what it is open on and how.  Its offset is
    kept apart, in [os_pos], so that the part that never changes after
    [open] is a value of its own. *)
Record ofd := OFD { o_obj : object; o_rd : bool; o_wr : bool }.

(** A character stream: the bytes still to be read from it, the bytes
    written to it so far, and whether it is a terminal. *)
Record chan := CHAN { c_in : bytes; c_out : bytes; c_tty : bool }.

(** What a launched program does with its arguments and the bytes on its
    standard input: how many of them it reads, and what it writes. *)
Definition program := list string → bytes → nat * bytes.

Record os := OS {
  os_files : gmap string bytes;
  os_dirs : gset string;
  os_exes : gmap string program;
  os_chans : gmap nat chan;
  os_descs : gmap nat ofd;
  os_pos : gmap nat nat;
  os_fds : gmap Z nat;
  os_cwd : string;
  os_path : option string
}.

Definition set_files (f : gmap string bytes) (st : os) : os :=
  OS f (os_dirs st) (os_exes st) (os_chans st) (os_descs st) (os_pos st)
     (os_fds st) (os_cwd st) (os_path st).
Definition set_chans (c : gmap nat chan) (st : os) : os :=
  OS (os_files st) (os_dirs st) (os_exes st) c (os_descs st) (os_pos st)
     (os_fds st) (os_cwd st) (os_path st).
Definition set_descs (d : gmap nat ofd) (st : os) : os :=
  OS (os_files st) (os_dirs st) (os_exes st) (os_chans st) d (os_pos st)
     (os_fds st) (os_cwd st) (os_path st).
Definition set_pos (p : gmap nat nat) (st : os) : os :=
  OS (os_files st) (os_dirs st) (os_exes st) (os_chans st) (os_descs st) p
     (os_fds st) (os_cwd st) (os_path st).
Definition set_fds (t : gmap Z nat) (st : os) : os :=
  OS (os_files st) (os_dirs st) (os_exes st) (os_chans st) (os_descs st)
     (os_pos st) t (os_cwd st) (os_path st).
Definition set_cwd (d : string) (st : os) : os :=
  OS (os_files st) (os_dirs st) (os_exes st) (os_chans st) (os_descs st)
     (os_pos st) (os_fds st) d (os_path st).

Definition STDIN_FILENO : Z := 0.
Definition STDOUT_FILENO : Z := 1.

(** Offset of a description (0 until it is moved). *)
Definition pos_of (st : os) (d : nat) : nat := default 0%nat (os_pos st !! d).

(** *** Descriptions: read, write, seek, truncate *)

(** Everything a description could deliver from where it stands. *)
Definition avail (st : os) (d : nat) : bytes :=
  match os_descs st !! d with
  | Some (OFD (File p) true _) =>
      match os_files st !! p with
      | Some c => drop (pos_of st d) c
      | None => []
      end
  | Some (OFD (Chan i) true _) =>
      match os_chans st !! i with
      | Some ch => c_in ch
      | None => []
      end
  | _ => []
  end.

(** Take the next [n] bytes off a description.  The empty result stands
    for both end of data and failure: the callers only test [len > 0]. *)
Definition desc_read (st : os) (d : nat) (n : nat) : bytes * os :=
  let data := take n (avail st d) in
  match os_descs st !! d with
  | Some (OFD (File p) true _) =>
      (data, set_pos (<[d := (pos_of st d + length data)%nat]> (os_pos st)) st)
  | Some (OFD (Chan i) true _) =>
      match os_chans st !! i with
      | Some ch =>
          (data, set_chans (<[i := CHAN (drop n (c_in ch)) (c_out ch) (c_tty ch)]>
                              (os_chans st)) st)
      | None => ([], st)
      end
  | _ => ([], st)
  end.

(** Contents of a file after [data] is stored at offset [off]; a gap
    between the old end and [off] reads as zero bytes. *)
Definition store_at (c : bytes) (off : nat) (data : bytes) : bytes :=
  take off c ++ replicate (off - length c)%nat nul ++ data
    ++ drop (off + length data)%nat c.

(** [write] of [data] on a description.  Nothing is written through a
    description not open for writing, and a write of no bytes changes
    nothing. *)
Definition desc_write (st : os) (d : nat) (data : bytes) : os :=
  match data with
  | [] => st
  | _ =>
    match os_descs st !! d with
    | Some (OFD (File p) _ true) =>
        match os_files st !! p with
        | Some c =>
            set_pos (<[d := (pos_of st d + length data)%nat]> (os_pos st))
              (set_files (<[p := store_at c (pos_of st d) data]> (os_files st)) st)
        | None => st
        end
    | Some (OFD (Chan i) _ true) =>
        match os_chans st !! i with
        | Some ch =>
            set_chans (<[i := CHAN (c_in ch) (c_out ch ++ data) (c_tty ch)]>
                         (os_chans st)) st
        | None => st
        end
    | _ => st
    end
  end.

(** [lseek(fd, 0, SEEK_SET)] on a description; streams cannot seek. *)
Definition desc_rewind (st : os) (d : nat) : os :=
  match os_descs st !! d with
  | Some (OFD (File _) _ _) => set_pos (<[d := 0%nat]> (os_pos st)) st
  | _ => st
  end.

(** [ftruncate(fd, 0)]: the file loses its contents; the offset of the
    description stays where it was. *)
Definition desc_truncate (st : os) (d : nat) : os :=
  match os_descs st !! d with
  | Some (OFD (File p) _ true) =>
      match os_files st !! p with
      | Some _ => set_files (<[p := []]> (os_files st)) st
      | None => st
      end
  | _ => st
  end.

(** *** System calls of the interpreter, through its descriptor table *)

(** The description a descriptor names; a negative descriptor (the -1 of
    a failed [open]) names none. *)
Definition fd_desc (t : gmap Z nat) (fd : Z) : option nat :=
  if 0 <=? fd then t !! fd else None.

Definition read (st : os) (fd : Z) (n : nat) : bytes * os :=
  match fd_desc (os_fds st) fd with
  | Some d => desc_read st d n
  | None => ([], st)
  end.

Definition write (st : os) (fd : Z) (data : bytes) : os :=
  match fd_desc (os_fds st) fd with
  | Some d => desc_write st d data
  | None => st
  end.

Definition lseek0 (st : os) (fd : Z) : os :=
  match fd_desc (os_fds st) fd with
  | Some d => desc_rewind st d
  | None => st
  end.

Definition ftruncate0 (st : os) (fd : Z) : os :=
  match fd_desc (os_fds st) fd with
  | Some d => desc_truncate st d
  | None => st
  end.

Definition close (st : os) (fd : Z) : os := set_fds (delete fd (os_fds st)) st.

(** [dup2] on a descriptor table: [new] comes to name the description of
    [old]; with [old] not open the table is left alone. *)
Definition dup2_table (t : gmap Z nat) (old new : Z) : gmap Z nat :=
  match fd_desc t old with
  | Some d => <[new := d]> t
  | None => t
  end.

Definition dup2 (st : os) (old new : Z) : os :=
  set_fds (dup2_table (os_fds st) old new) st.

(** The lowest descriptor not in use. *)
Fixpoint lowest_free (t : gmap Z nat) (n : nat) (fd : Z) : Z :=
  match n with
  | O => fd
  | S n' =>
      match t !! fd with
      | None => fd
      | Some _ => lowest_free t n' (fd + 1)
      end
  end.

Definition alloc_fd (t : gmap Z nat) : Z := lowest_free t (size t) 0.

Definition isatty (st : os) (fd : Z) : bool :=
  match fd_desc (os_fds st) fd with
  | Some d =>
      match os_descs st !! d with
      | Some (OFD (Chan i) _ _) =>
          match os_chans st !! i with
          | Some ch => c_tty ch
          | None => false
          end
      | _ => false
      end
  | None => false
  end.

(** ** The tokenizer interface

    [tokenizer.h] and its implementation lie outside [shell.c]; the
    interpreter uses the four accessors below and [tokenize]. *)

(** Modelled from the spec: the token sequence of [tokenizer.h], "an
    ordered sequence of strings produced by tokenization; index 0 is the
    command name".  [tokens_get_length] is its number of tokens. *)
Definition tokens_get_length (tokens : list string) : Z :=
  Z.of_nat (length tokens).

(** Modelled from the spec: [tokens_get_token] of [tokenizer.h], the token
    at index [n]; an absent token ("if absent or invalid") is the null
    pointer, here [None]. *)
Definition tokens_get_token (tokens : list string) (n : Z) : option string :=
  if (0 <=? n) && (n <? tokens_get_length tokens) then tokens !! Z.to_nat n
  else None.

(** Modelled from the spec: [is_contains_word] of [tokenizer.h], whether
    "the line contains at least one" token equal to [word]. *)
Definition is_contains_word (tokens : list string) (word : string) : bool :=
  bool_decide (word ∈ tokens).

(** ** Constants of [shell.c] *)

Definition INPUT_FILE : string := "./.input".
Definition OUTPUT_FILE : string := "./.output".
Definition BUF_SIZE : Z := 4096.

Definition SIZE_MAX1 : Z := 2 ^ 64.
Definition size_add (a b : Z) : Z := (a + b) mod SIZE_MAX1.
Definition size_sub (a b : Z) : Z := (a - b) mod SIZE_MAX1.

(** [++line_num] on a 32-bit [int] in two's complement. *)
Definition int_incr (n : Z) : Z := (n + 1 + 2 ^ 31) mod 2 ^ 32 - 2 ^ 31.

(** Capacity of [absolute_path] in [execute_program]. *)
Definition ABSOLUTE_PATH_CAP : nat := 128.

(** What a call of a built-in, or the processing of a line, ends in:
    either it returns, or the process has called [exit]. *)
Inductive outcome :=
| Returned (ret : Z) (st : os)
| Terminated (status : Z) (st : os).

(** How the child of [execute_program] ends: its image is replaced by a
    program ([execv] succeeded on [path]), or it prints and calls [exit],
    or the C text leaves its behaviour undefined. *)
Inductive child_end :=
| Replaced (path : string) (image : program) (argv : list string)
| Exited (status : Z) (printed : bytes)
| Undefined.

Inductive access := O_RDONLY | O_WRONLY | O_RDWR.

Definition can_read (a : access) : bool :=
  match a with O_WRONLY => false | _ => true end.
Definition can_write (a : access) : bool :=
  match a with O_RDONLY => false | _ => true end.

(** [strtok(s, ":")] called until it returns [NULL]: the maximal runs of
    bytes other than the delimiter, in order.  [cur] is the run being
    read. *)
Fixpoint strtok_run (cur : string) (s : string) : list string :=
  match s with
  | EmptyString =>
      match cur with EmptyString => [] | _ => [cur] end
  | String c rest =>
      if Ascii.eqb c ":"%char then
        match cur with
        | EmptyString => strtok_run EmptyString rest
        | _ => cur :: strtok_run EmptyString rest
        end
      else strtok_run (cur +:+ String c EmptyString) rest
  end.

Definition strtok_all (s : string) : list string := strtok_run EmptyString s.

(** [argv] as [execv] reads it: up to the first null pointer. *)
Fixpoint until_null (argv : list (option string)) : list string :=
  match argv with
  | Some a :: rest => a :: until_null rest
  | _ => []
  end.

Section Shell.

(** Name resolution of the file system: the canonical name of [path] as
    seen from the working directory [cwd]. *)
Variable resolve : string → string → string.

(** The tokenizer itself ([tokenize] of [tokenizer.h]), a black box from a
    raw line to its tokens. *)
Variable tokenize : bytes → list string.

(** *** [open], [chdir], [execv] *)

(** [open(path, [O_CREAT |] access)].  A directory is refused ([EISDIR])
    unless it is opened read-only and without [O_CREAT]; the description
    is then open on the directory, and nothing can be read through it.  A
    missing file is created empty under [O_CREAT] and refused without it
    ([ENOENT]).  The new description starts at offset 0 and gets the lowest
    free descriptor.  The result is the descriptor, or -1.  Access rights
    and missing parent directories are not modelled: [open] fails for no
    other reason here, and the statements about redirections below take
    the success of [open] as their hypothesis instead. *)
Definition open (st : os) (path : option string) (creat : bool) (a : access)
  : Z * os :=
  match path with
  | None => (-1, st)
  | Some p =>
      let name := resolve (os_cwd st) p in
      let opened (o : object) (files : gmap string bytes) :=
        let d := fresh (dom (os_descs st)) in
        let fd := alloc_fd (os_fds st) in
        (fd, set_fds (<[fd := d]> (os_fds st))
               (set_pos (<[d := 0%nat]> (os_pos st))
                  (set_descs (<[d := OFD o (can_read a) (can_write a)]>
                                (os_descs st))
                     (set_files files st)))) in
      if decide (name ∈ os_dirs st) then
        if can_write a || creat then (-1, st) else opened (Dir name) (os_files st)
      else
        match os_files st !! name with
        | Some _ => opened (File name) (os_files st)
        | None =>
            if creat then opened (File name) (<[name := []]> (os_files st))
            else (-1, st)
        end
  end.

Definition chdir (st : os) (path : option string) : Z * os :=
  match path with
  | None => (-1, st)
  | Some p =>
      let d := resolve (os_cwd st) p in
      if decide (d ∈ os_dirs st) then (0, set_cwd d st) else (-1, st)
  end.

(** [execv(path, argv)] succeeds when [path] names an executable. *)
Definition execv (st : os) (path : string) : option program :=
  os_exes st !! resolve (os_cwd st) path.

(** *** Built-in commands *)

Definition printf (st : os) (text : bytes) : os := write st STDOUT_FILENO text.

Definition cmd_docs : list (string * string) :=
  [ ("?", "show this help menu");
    ("exit", "exit the command shell");
    ("cd", "Changes the current working directory to that specified directory");
    ("pwd", "Prints the current working directory to standard output") ].

Definition cmd_help (tokens : list string) (st : os) : outcome :=
  Returned 1
    (foldl (λ s e, printf s (str (e.1 +:+ " - " +:+ e.2) ++ [newline])) st cmd_docs).

Definition cmd_exit (tokens : list string) (st : os) : outcome :=
  Terminated 0 st.

Definition cmd_cd (tokens : list string) (st : os) : outcome :=
  let path := tokens_get_token tokens 1 in
  Returned 1 (chdir st path).2.

Definition cmd_pwd (tokens : list string) (st : os) : outcome :=
  let cwd := os_cwd st in
  Returned 1 (printf st (str cwd ++ [newline])).

Definition cmd_fun_t := list string → os → outcome.

Record fun_desc := FUN_DESC { fun_ : cmd_fun_t; cmd : string; doc : string }.

Definition cmd_table : list fun_desc :=
  zip_with (λ f e, FUN_DESC f e.1 e.2) [cmd_help; cmd_exit; cmd_cd; cmd_pwd] cmd_docs.

Fixpoint lookup_from (table : list fun_desc) (i : Z) (c : string) : Z :=
  match table with
  | [] => -1
  | e :: rest => if String.eqb (cmd e) c then i else lookup_from rest (i + 1) c
  end.

Definition lookup (c : option string) : Z :=
  match c with
  | None => -1
  | Some c => lookup_from cmd_table 0 c
  end.

(** *** [execute_program] *)

(** The [PATH] loop of the child: each prefix in turn is copied into the
    128-byte [absolute_path] with ["/"] and the command name appended, and
    executed; the first success ends the search. *)
Fixpoint search_path (st : os) (relative_path : string) (argv : list string)
    (prefixes : list string) : child_end :=
  match prefixes with
  | [] => Exited 0 (str (relative_path +:+ ": command not found") ++ [newline])
  | prefix_path :: rest =>
      let absolute_path := prefix_path +:+ "/" +:+ relative_path in
      if (ABSOLUTE_PATH_CAP <=? String.length absolute_path)%nat then Undefined
      else
        match execv st absolute_path with
        | Some image => Replaced absolute_path image argv
        | None => search_path st relative_path argv rest
        end
  end.

Definition build_argv (tokens : list string) (offset argc : Z) : list (option string) :=
  map (λ i, tokens_get_token tokens (size_add offset (Z.of_nat i)))
      (seq 0 (Z.to_nat argc)).

(** The child of [execute_program] after its two [dup2] calls. *)
Definition child_body (st : os) (tokens : list string) (offset argc : Z)
  : child_end :=
  if size_add argc 1 =? 0 then Undefined
  else
    match tokens_get_token tokens offset with
    | None => Undefined
    | Some relative_path =>
        let argv := until_null (build_argv tokens offset argc) in
        match execv st relative_path with
        | Some image => Replaced relative_path image argv
        | None =>
            match os_path st with
            | None => Undefined
            | Some pathstr => search_path st relative_path argv (strtok_all pathstr)
            end
        end
    end.

(** What the run of the child leaves in the state it shares with the
    interpreter: the descriptions behind its standard input [din] and
    standard output [dout], and the objects they are open on. *)
Definition child_effect (st : os) (din dout : option nat) (e : child_end) : os :=
  match e with
  | Replaced _ image argv =>
      let input := from_option (avail st) [] din in
      let '(n, out) := image argv input in
      let st1 := from_option (λ d, (desc_read st d n).2) st din in
      from_option (λ d, desc_write st1 d out) st1 dout
  | Exited _ printed => from_option (λ d, desc_write st d printed) st dout
  | Undefined => st
  end.

(** Descriptor table of the child once [indes] and [outdes] are
    duplicated onto 0 and 1. *)
Definition child_fds (st : os) (indes outdes : Z) : gmap Z nat :=
  dup2_table (dup2_table (os_fds st) indes STDIN_FILENO) outdes STDOUT_FILENO.

(** [fork], the child, and [wait] in the parent. *)
Definition execute_program (st : os) (tokens : list string) (offset argc : Z)
    (indes outdes : Z) : os :=
  let t := child_fds st indes outdes in
  child_effect st (fd_desc t STDIN_FILENO) (fd_desc t STDOUT_FILENO)
    (child_body st tokens offset argc).

(** *** Pipelines *)

(** [while ((len = read(src, buf, BUF_SIZE)) > 0) write(dst, buf, len);]
    The loop has no bound of its own; [fuel] counts its iterations and
    [None] is a loop still running when the fuel is spent. *)
Fixpoint copy_loop (fuel : nat) (st : os) (src dst : Z) : option os :=
  match fuel with
  | O => None
  | S fuel' =>
      let '(buf, st1) := read st src (Z.to_nat BUF_SIZE) in
      match buf with
      | [] => Some st1
      | _ => copy_loop fuel' (write st1 dst buf) src dst
      end
  end.

(** Number of ["|"] tokens of the line. *)
Definition count_pipes (tokens : list string) : Z :=
  Z.of_nat (length (filter (λ t, t = "|") tokens)).

(** [while (fast < tokens_len && strcmp(token(fast), "|")) fast++;]
    run for at most [n] steps; [length tokens] steps are always enough
    (lemma [scan_stage_stops]). *)
Fixpoint scan_stage (n : nat) (tokens : list string) (fast : Z) : Z :=
  match n with
  | O => fast
  | S n' =>
      if fast <? tokens_get_length tokens then
        match tokens_get_token tokens fast with
        | Some t => if String.eqb t "|" then fast else scan_stage n' tokens (fast + 1)
        | None => fast
        end
      else fast
  end.

(** The [for] loop over the stages, [n] iterations to go. *)
Fixpoint stages (fuel : nat) (n : nat) (st : os) (tokens : list string)
    (slow fast : Z) (input_filedes output_filedes : Z) : option os :=
  match n with
  | O => Some st
  | S n' =>
      let fast := scan_stage (length tokens) tokens fast in
      let st := lseek0 st input_filedes in
      let st := execute_program st tokens slow (size_sub fast slow)
                  input_filedes output_filedes in
      let st := ftruncate0 st input_filedes in
      let st := lseek0 st output_filedes in
      st ← copy_loop fuel st output_filedes input_filedes;
      let st := ftruncate0 st output_filedes in
      let fast := size_add fast 1 in
      stages fuel n' st tokens fast fast input_filedes output_filedes
  end.

Definition pipeline (fuel : nat) (st : os) (tokens : list string) : option os :=
  let '(input_filedes, st) := open st (Some INPUT_FILE) true O_RDWR in
  let '(output_filedes, st) := open st (Some OUTPUT_FILE) true O_RDWR in
  let st := ftruncate0 st input_filedes in
  let st := ftruncate0 st output_filedes in
  let process_num := size_add 1 (count_pipes tokens) in
  st ← stages fuel (Z.to_nat process_num) st tokens 0 0 input_filedes output_filedes;
  let st := lseek0 st input_filedes in
  st ← copy_loop fuel st input_filedes STDIN_FILENO;
  Some (close (close st input_filedes) output_filedes).

(** *** One line *)

Definition redirect_out (st : os) (tokens : list string) : os :=
  let command_argc := tokens_get_length tokens in
  let filename := tokens_get_token tokens (size_sub command_argc 1) in
  let '(filedes, st) := open st filename true O_WRONLY in
  let st := execute_program st tokens 0 (size_sub command_argc 2)
              STDIN_FILENO filedes in
  close st filedes.

Definition redirect_in (st : os) (tokens : list string) : os :=
  let command_argc := tokens_get_length tokens in
  let filename := tokens_get_token tokens (size_sub command_argc 1) in
  let '(filedes, st) := open st filename false O_RDONLY in
  let st := dup2 st filedes STDIN_FILENO in
  let st := execute_program st tokens 0 (size_sub command_argc 2)
              filedes STDOUT_FILENO in
  close st filedes.

(** The body of the [while] loop of [main] between [tokenize] and the
    prompt: the line is either a built-in, or a pipeline, or a command with
    one redirection, or a plain command. *)
Definition run_line (fuel : nat) (tokens : list string) (st : os) : option outcome :=
  let fundex := lookup (tokens_get_token tokens 0) in
  if 0 <=? fundex then
    e ← cmd_table !! Z.to_nat fundex;
    Some (fun_ e tokens st)
  else
    let command_argc := tokens_get_length tokens in
    if is_contains_word tokens "|" then
      st ← pipeline fuel st tokens; Some (Returned 0 st)
    else if is_contains_word tokens ">" then
      Some (Returned 0 (redirect_out st tokens))
    else if is_contains_word tokens "<" then
      Some (Returned 0 (redirect_in st tokens))
    else
      Some (Returned 0 (execute_program st tokens 0 command_argc
                          STDIN_FILENO STDOUT_FILENO)).

(** *** The read loop of [main] *)

(** How many bytes [fgets] stores from what the stream holds: up to and
    including the first newline, [n] at most. *)
Fixpoint line_len (n : nat) (l : bytes) : nat :=
  match n, l with
  | S n', b :: l' => if Byte.eqb b newline then 1%nat else S (line_len n' l')
  | _, _ => O
  end.

(** [fgets(line, size, stdin)]; [None] is the null pointer of end of input.
    One line is taken off descriptor 0, which is what a terminal hands to
    the [read] behind [fgets]. *)
Definition fgets (st : os) (size : Z) : option (bytes * os) :=
  d ← fd_desc (os_fds st) STDIN_FILENO;
  match line_len (Z.to_nat (size - 1)) (avail st d) with
  | O => None
  | k => Some (desc_read st d k)
  end.

(** Text of [fprintf(stdout, "%d: ", n)]. *)
Definition prompt (n : Z) : bytes := str (pretty n +:+ ": ").

(** The interpreter at the head of its loop: [line_num], the machine, and
    a record of the prompt numbers [main] has printed and of the number of
    lines it has processed so far. *)
Record config := CFG {
  line_num : Z;
  prompts : list Z;
  processed : nat;
  machine : os
}.

Inductive iteration :=
| Again (c : config)
| Halt (status : Z) (c : config).

Definition print_prompt (n : Z) (c : config) (st : os) : config :=
  CFG n (prompts c ++ [n]) (processed c) (printf st (prompt n)).

(** [init_shell] as far as the loop depends on it: [shell_is_interactive].
    (Waiting for the foreground and saving the terminal modes are not
    modelled.) *)
Definition shell_is_interactive (st : os) : bool := isatty st STDIN_FILENO.

Definition loop_body (fuel : nat) (interactive : bool) (c : config)
  : option iteration :=
  match fgets (machine c) BUF_SIZE with
  | None => Some (Halt 0 c)
  | Some (line, st) =>
      let tokens := tokenize line in
      r ← run_line fuel tokens st;
      match r with
      | Terminated status st =>
          Some (Halt status (CFG (line_num c) (prompts c) (processed c) st))
      | Returned _ st =>
          let c := CFG (line_num c) (prompts c) (S (processed c)) st in
          Some (Again (if interactive
                       then print_prompt (int_incr (line_num c)) c st
                       else c))
      end
  end.

(** [k] rounds of the loop; [None] when it is still running after them. *)
Fixpoint main_loop (k fuel : nat) (interactive : bool) (c : config)
  : option (Z * config) :=
  match k with
  | O => None
  | S k' =>
      it ← loop_body fuel interactive c;
      match it with
      | Halt status c' => Some (status, c')
      | Again c' => main_loop k' fuel interactive c'
      end
  end.

Definition main_start (st : os) : config :=
  let c := CFG 0 [] 0 st in
  if shell_is_interactive st then print_prompt 0 c st else c.

Definition main (k fuel : nat) (st : os) : option (Z * config) :=
  main_loop k fuel (shell_is_interactive st) (main_start st).

End Shell.

(** ** The interpreter with the buffer of [stdout]

    [printf] and [fprintf(stdout, ...)] do not write descriptor 1: they
    append to the buffer of the stream [stdout], which lies in the memory
    of the process.  With descriptor 1 a terminal the stream is line
    buffered and flushed before a terminal is read; the bytes are out
    before the next [fgets] and before the next [fork], which the
    definitions above render by writing at once.  With descriptor 1
    anything else the stream is fully buffered: the bytes stay pending
    until the process exits (or the buffer fills, which takes more output
    than the runs below produce).  [fork] copies the pending bytes into
    the child, [execv] discards the copy, and [exit] in the child writes
    it out on the child's descriptor 1.  [shell.c] never calls [fflush]. *)

(** The interpreter: the machine and the bytes pending in [stdout]. *)
Record process := PROC { p_machine : os; p_pending : bytes }.

(** How the processing of a line ends for the interpreter. *)
Inductive line_end :=
| Continues (ret : Z) (p : process)
| Exits (status : Z) (st : os).

Definition buffered_printf (p : process) (text : bytes) : process :=
  if isatty (p_machine p) STDOUT_FILENO
  then PROC (printf (p_machine p) (p_pending p ++ text)) []
  else PROC (p_machine p) (p_pending p ++ text).

(** What [exit], or the return from [main], does with the pending bytes. *)
Definition flush_at_exit (p : process) : os :=
  write (p_machine p) STDOUT_FILENO (p_pending p).

(** The end of a child that started with [pending] in its copy of the
    buffer. *)
Definition inherit (pending : bytes) (e : child_end) : child_end :=
  match e with
  | Exited status printed => Exited status (pending ++ printed)
  | _ => e
  end.

Section Stdio.
Variable resolve : string → string → string.
Variable tokenize : bytes → list string.

Definition buffered_cmd_help (tokens : list string) (p : process) : line_end :=
  Continues 1
    (foldl (λ q e, buffered_printf q (str (e.1 +:+ " - " +:+ e.2) ++ [newline])) p cmd_docs).

Definition buffered_cmd_exit (tokens : list string) (p : process) : line_end :=
  Exits 0 (flush_at_exit p).

Definition buffered_cmd_cd (tokens : list string) (p : process) : line_end :=
  let path := tokens_get_token tokens 1 in
  Continues 1 (PROC (chdir resolve (p_machine p) path).2 (p_pending p)).

Definition buffered_cmd_pwd (tokens : list string) (p : process) : line_end :=
  let cwd := os_cwd (p_machine p) in
  Continues 1 (buffered_printf p (str cwd ++ [newline])).

(** The handlers, in the order of [cmd_table]. *)
Definition buffered_cmd_table : list (list string → process → line_end) :=
  [buffered_cmd_help; buffered_cmd_exit; buffered_cmd_cd; buffered_cmd_pwd].

(** [execute_program] in a process with [pending] in its buffer. *)
Definition buffered_execute_program (pending : bytes) (st : os) (tokens : list string)
    (offset argc : Z) (indes outdes : Z) : os :=
  let t := child_fds st indes outdes in
  child_effect st (fd_desc t STDIN_FILENO) (fd_desc t STDOUT_FILENO)
    (inherit pending (child_body resolve st tokens offset argc)).

Fixpoint buffered_stages (pending : bytes) (fuel : nat) (n : nat) (st : os)
    (tokens : list string) (slow fast : Z) (input_filedes output_filedes : Z)
  : option os :=
  match n with
  | O => Some st
  | S n' =>
      let fast := scan_stage (length tokens) tokens fast in
      let st := lseek0 st input_filedes in
      let st := buffered_execute_program pending st tokens slow (size_sub fast slow)
                  input_filedes output_filedes in
      let st := ftruncate0 st input_filedes in
      let st := lseek0 st output_filedes in
      st ← copy_loop fuel st output_filedes input_filedes;
      let st := ftruncate0 st output_filedes in
      let fast := size_add fast 1 in
      buffered_stages pending fuel n' st tokens fast fast input_filedes output_filedes
  end.

Definition buffered_pipeline (pending : bytes) (fuel : nat) (st : os)
    (tokens : list string) : option os :=
  let '(input_filedes, st) := open resolve st (Some INPUT_FILE) true O_RDWR in
  let '(output_filedes, st) := open resolve st (Some OUTPUT_FILE) true O_RDWR in
  let st := ftruncate0 st input_filedes in
  let st := ftruncate0 st output_filedes in
  let process_num := size_add 1 (count_pipes tokens) in
  st ← buffered_stages pending fuel (Z.to_nat process_num) st tokens 0 0
         input_filedes output_filedes;
  let st := lseek0 st input_filedes in
  st ← copy_loop fuel st input_filedes STDIN_FILENO;
  Some (close (close st input_filedes) output_filedes).

Definition buffered_run_line (fuel : nat) (tokens : list string) (p : process)
  : option line_end :=
  let fundex := lookup resolve (tokens_get_token tokens 0) in
  if 0 <=? fundex then
    h ← buffered_cmd_table !! Z.to_nat fundex;
    Some (h tokens p)
  else
    let st := p_machine p in
    let pending := p_pending p in
    let command_argc := tokens_get_length tokens in
    if is_contains_word tokens "|" then
      st ← buffered_pipeline pending fuel st tokens;
      Some (Continues 0 (PROC st pending))
    else if is_contains_word tokens ">" then
      let filename := tokens_get_token tokens (size_sub command_argc 1) in
      let '(filedes, st) := open resolve st filename true O_WRONLY in
      let st := buffered_execute_program pending st tokens 0 (size_sub command_argc 2)
                  STDIN_FILENO filedes in
      Some (Continues 0 (PROC (close st filedes) pending))
    else if is_contains_word tokens "<" then
      let filename := tokens_get_token tokens (size_sub command_argc 1) in
      let '(filedes, st) := open resolve st filename false O_RDONLY in
      let st := dup2 st filedes STDIN_FILENO in
      let st := buffered_execute_program pending st tokens 0 (size_sub command_argc 2)
                  filedes STDOUT_FILENO in
      Some (Continues 0 (PROC (close st filedes) pending))
    else
      Some (Continues 0
              (PROC (buffered_execute_program pending st tokens 0 command_argc
                       STDIN_FILENO STDOUT_FILENO) pending)).

(** [k] rounds of the loop of [main] at most; the result is the exit
    status and the machine the process leaves behind. *)
Fixpoint buffered_main_loop (k fuel : nat) (interactive : bool) (line_num : Z)
    (p : process) : option (Z * os) :=
  match k with
  | O => None
  | S k' =>
      match fgets (p_machine p) BUF_SIZE with
      | None => Some (0, flush_at_exit p)
      | Some (line, st) =>
          r ← buffered_run_line fuel (tokenize line) (PROC st (p_pending p));
          match r with
          | Exits status st => Some (status, st)
          | Continues _ p =>
              if interactive
              then buffered_main_loop k' fuel interactive (int_incr line_num)
                     (buffered_printf p (prompt (int_incr line_num)))
              else buffered_main_loop k' fuel interactive line_num p
          end
      end
  end.

Definition buffered_main (k fuel : nat) (st : os) : option (Z * os) :=
  let interactive := shell_is_interactive st in
  let p := PROC st [] in
  buffered_main_loop k fuel interactive 0
    (if interactive then buffered_printf p (prompt 0) else p).

End Stdio.

(** ** A concrete machine for the examples *)

(** Names without symbolic links or dots: an absolute path is its own
    canonical name, any other is taken under the working directory. *)
Definition plain_resolve (cwd p : string) : string :=
  match p with
  | String "/"%char _ => p
  | _ => cwd +:+ "/" +:+ p
  end.

Definition is_blank (b : byte) : bool :=
  Byte.eqb b " "%byte || Byte.eqb b newline || Byte.eqb b x09.

(** A tokenizer for the examples: the runs of bytes between blanks. *)
Fixpoint words_run (cur : string) (l : bytes) : list string :=
  match l with
  | [] => match cur with EmptyString => [] | _ => [cur] end
  | b :: l' =>
      if is_blank b then
        match cur with
        | EmptyString => words_run EmptyString l'
        | _ => cur :: words_run EmptyString l'
        end
      else words_run (cur +:+ String (ascii_of_byte b) EmptyString) l'
  end.

Definition words (l : bytes) : list string := words_run EmptyString l.

Definition echo : program :=
  λ argv _, (0%nat, str (String.concat " " (tail argv)) ++ [newline]).

Definition cat : program := λ _ input, (length input, input).

Definition upcase (b : byte) : byte :=
  let n := Byte.to_N b in
  if ((97 <=? n) && (n <=? 122))%N then default b (Byte.of_N (n - 32)) else b.

Definition tr : program := λ _ input, (length input, map upcase input).

(** Standard input is stream 0 holding [input]: a terminal open for
    reading and writing, or a pipe open for reading.  Standard output is
    stream 1. *)
Definition demo_machine (tty : bool) (input : bytes) : os :=
  OS ∅ {["/home"]}
     (list_to_map [("/bin/echo", echo); ("/bin/cat", cat); ("/usr/bin/tr", tr)])
     (list_to_map [(0%nat, CHAN input [] tty); (1%nat, CHAN [] [] false)])
     (list_to_map [(0%nat, OFD (Chan 0) true tty); (1%nat, OFD (Chan 1) false true)])
     ∅ (list_to_map [(0, 0%nat); (1, 1%nat)]) "/home" (Some "/bin:/usr/bin").

(** The pipeline of the examples, [echo abc | tr a-z A-Z]. *)
Definition demo_pipeline : list string := ["echo"; "abc"; "|"; "tr"; "a-z"; "A-Z"].

(** The machine of the examples with a file [/home/f] holding [content]. *)
Definition demo_with_file (content : bytes) : os :=
  set_files {["/home/f" := content]} (demo_machine true []).

(** The machine of the examples with stale bytes in the output scratch file. *)
Definition demo_stale : os :=
  set_files {["/home/./.output" := str "stale"]} (demo_machine true []).

(** One terminal on descriptors 0 and 1, holding [input]. *)
Definition demo_console (input : bytes) : os :=
  set_fds (<[STDOUT_FILENO := 0%nat]> (os_fds (demo_machine true input)))
    (demo_machine true input).

(** Two lines typed at the terminal. *)
Definition two_lines : bytes := str "pwd" ++ [newline] ++ str "nosuch" ++ [newline].

(** A name of 200 bytes. *)
Definition long_name : string :=
  Stdlib.Strings.String.string_of_list_ascii (replicate 200 "a"%char).

(** A value of [PATH] whose first directory has a name of 201 bytes. *)
Definition long_path : string := "/" +:+ long_name +:+ ":/bin:/usr/bin".

(** The machine of the examples with another value of [PATH] ([None]: the
    variable is not set). *)
Definition demo_with_path (tty : bool) (input : bytes) (path : option string) : os :=
  let st := demo_machine tty input in
  OS (os_files st) (os_dirs st) (os_exes st) (os_chans st) (os_descs st) (os_pos st)
     (os_fds st) (os_cwd st) path.

(** A session at the console: the file [f] holds one line, and two lines
    are typed. *)
Definition demo_session : os :=
  set_files {["/home/f" := str "echo from-file" ++ [newline]]}
    (demo_console (str "nosuch < f" ++ [newline] ++ str "pwd" ++ [newline])).

(** What a stream has received. *)
Definition written (st : os) (i : nat) : bytes :=
  from_option c_out [] (os_chans st !! i).

(** ** Vocabulary of the statements *)

(** A candidate [prefix/name] that the 128-byte [absolute_path] holds
    together with its terminator. *)
Definition fits (prefix_path relative_path : string) : Prop :=
  (String.length (prefix_path +:+ "/" +:+ relative_path) < ABSOLUTE_PATH_CAP)%nat.

(** The line of [printf("%s: command not found\n", name)]. *)
Definition not_found_line (name : string) : bytes :=
  str (name +:+ ": command not found") ++ [newline].


(** [st'] has the descriptor table and the descriptions of [st], and
    every file of [st]. *)
Definition stable (st st' : os) : Prop :=
  os_fds st' = os_fds st ∧ os_descs st' = os_descs st ∧
  ∀ p, is_Some (os_files st !! p) → is_Some (os_files st' !! p).

(** The description [d], if it is one, is open on something other than
    the file [q]. *)
Definition off_file (st : os) (d : option nat) (q : string) : Prop :=
  ∀ d' o, d = Some d' → os_descs st !! d' = Some o → o_obj o ≠ File q.

(** Bytes the descriptor [src] can still deliver. *)
Definition remaining (st : os) (src : Z) : nat :=
  from_option (λ d, length (avail st d)) 0%nat (fd_desc (os_fds st) src).

(** [dst] is not open on the file [src] reads. *)
Definition apart (st : os) (src dst : Z) : Prop :=
  ∀ ds name rd wr,
    fd_desc (os_fds st) src = Some ds →
    os_descs st !! ds = Some (OFD (File name) rd wr) →
    off_file st (fd_desc (os_fds st) dst) name.

(** The two scratch descriptors are open for reading and writing on two
    different files, and the output file exists. *)
Definition piping (st : os) (fi fo : Z) (pin pout : string) : Prop :=
  ∃ di do,
    fd_desc (os_fds st) fi = Some di ∧ fd_desc (os_fds st) fo = Some do ∧
    os_descs st !! di = Some (OFD (File pin) true true) ∧
    os_descs st !! do = Some (OFD (File pout) true true) ∧
    pin ≠ pout ∧ is_Some (os_files st !! pout).

(** Standard input is open, on something other than the two scratch files
    (it is where the line came from). *)
Definition stdin_elsewhere (resolve : string → string → string) (st : os) : Prop :=
  ∃ d0 o,
    os_fds st !! STDIN_FILENO = Some d0 ∧ os_descs st !! d0 = Some o ∧
    o_obj o ≠ File (resolve (os_cwd st) INPUT_FILE) ∧
    o_obj o ≠ File (resolve (os_cwd st) OUTPUT_FILE).

(** The loop head reached after [k] lines have been processed, if the loop
    gets that far. *)
Fixpoint rounds (resolve : string → string → string) (tokenize : bytes → list string)
    (k fuel : nat) (interactive : bool) (c : config) : option config :=
  match k with
  | O => Some c
  | S k' =>
      match loop_body resolve tokenize fuel interactive c with
      | Some (Again c') => rounds resolve tokenize k' fuel interactive c'
      | _ => None
      end
  end.

(** The prompts a run has printed by the time it has processed
    [processed c] lines: [0 .. processed c] on a terminal, none otherwise. *)
Definition prompts_in_step (interactive : bool) (c : config) : Prop :=
  if interactive
  then line_num c = Z.of_nat (processed c) ∧
       prompts c = Z.of_nat <$> seq 0 (S (processed c))
  else prompts c = [].

(** "Splitting on [:]" in the spec's words, read literally: every field
    between two colons, the empty ones included. *)
Fixpoint split_colon_run (cur : string) (s : string) : list string :=
  match s with
  | EmptyString => [cur]
  | String c rest =>
      if Ascii.eqb c ":"%char then cur :: split_colon_run EmptyString rest
      else split_colon_run (cur +:+ String c EmptyString) rest
  end.

Definition split_colon (s : string) : list string := split_colon_run EmptyString s.

Definition nonempty (s : string) : bool :=
  match s with EmptyString => false | _ => true end.

(** The line [printf("%s - %s\n", cmd, doc)] of one table entry. *)
Definition help_line (e : string * string) : bytes :=
  str (e.1 +:+ " - " +:+ e.2) ++ [newline].

(** Everything [cmd_help] prints. *)
Definition help_text : bytes := concat (help_line <$> cmd_docs).

(** Names of the built-in commands, in table order. *)
Definition builtin_names : list string := ["?"; "exit"; "cd"; "pwd"].






(** ** Descriptors *)

Lemma fd_desc_nonneg (t : gmap Z nat) fd : 0 ≤ fd → fd_desc t fd = t !! fd.
Proof. intros H. unfold fd_desc. destruct (Z.leb_spec 0 fd); [done | lia]. Qed.

Lemma fd_desc_Some (t : gmap Z nat) fd d :
  fd_desc t fd = Some d → t !! fd = Some d ∧ 0 ≤ fd.
Proof. unfold fd_desc. destruct (Z.leb_spec 0 fd); [done | discriminate]. Qed.

Lemma lowest_free_spec (t : gmap Z nat) n fd :
  fd ≤ lowest_free t n fd ∧
  (t !! lowest_free t n fd = None ∨
   (lowest_free t n fd = fd + Z.of_nat n ∧
    ∀ i, fd ≤ i < fd + Z.of_nat n → is_Some (t !! i))).
Proof.
  revert fd. induction n as [|n IH]; intros fd; simpl.
  - split; [lia |]. right. split; [lia |]. intros i Hi. lia.
  - destruct (t !! fd) as [d|] eqn:Hfd.
    + destruct (IH (fd + 1)) as [Hle [Hnone | [Heq Hall]]].
      * split; [lia |]. by left.
      * split; [lia |]. right. split; [lia |].
        intros i Hi. destruct (decide (i = fd)) as [-> | Hne]; [by rewrite Hfd |].
        apply Hall. lia.
    + split; [lia |]. by left.
Qed.

(** A table that holds every descriptor below its size holds no other. *)
Lemma full_prefix_excludes_size (t : gmap Z nat) :
  (∀ i, 0 ≤ i < Z.of_nat (size t) → is_Some (t !! i)) →
  t !! Z.of_nat (size t) = None.
Proof.
  intros Hall.
  set (S := list_to_set (seqZ 0 (Z.of_nat (size t))) : gset Z).
  assert (HS : S ⊆ dom t).
  { intros i Hi. apply elem_of_list_to_set, elem_of_seqZ in Hi.
    apply elem_of_dom, Hall. lia. }
  assert (Hsz : size S = size t).
  { unfold S. rewrite size_list_to_set by apply NoDup_seqZ.
    rewrite length_seqZ. lia. }
  assert (Heq : S = dom t).
  { apply set_subseteq_size_eq; [done |]. rewrite size_dom. lia. }
  apply not_elem_of_dom. rewrite <- Heq. unfold S.
  rewrite elem_of_list_to_set, elem_of_seqZ. lia.
Qed.

Lemma alloc_fd_fresh (t : gmap Z nat) : t !! alloc_fd t = None ∧ 0 ≤ alloc_fd t.
Proof.
  unfold alloc_fd.
  destruct (lowest_free_spec t (size t) 0) as [Hle [Hnone | [Heq Hall]]].
  - done.
  - split; [| done]. rewrite Heq. simpl. apply full_prefix_excludes_size.
    intros i Hi. apply Hall. lia.
Qed.

Lemma dup2_table_same (t : gmap Z nat) fd : dup2_table t fd fd = t.
Proof.
  unfold dup2_table. destruct (fd_desc t fd) as [d|] eqn:H; [| done].
  apply fd_desc_Some in H as [H _]. by apply insert_id.
Qed.

Lemma child_fds_plain st :
  child_fds st STDIN_FILENO STDOUT_FILENO = os_fds st.
Proof. unfold child_fds. by rewrite !dup2_table_same. Qed.

(** ** Frame properties of the system calls *)

Ltac frame_cases :=
  repeat match goal with
         | |- context [match ?x with _ => _ end] => destruct x eqn:?; simpl
         end; try done.

Lemma desc_read_frame st d n :
  let st' := (desc_read st d n).2 in
  os_fds st' = os_fds st ∧ os_descs st' = os_descs st ∧
  os_files st' = os_files st ∧ os_dirs st' = os_dirs st ∧
  os_cwd st' = os_cwd st ∧ os_path st' = os_path st ∧ os_exes st' = os_exes st.
Proof. unfold desc_read. frame_cases. Qed.

Lemma desc_write_frame st d data :
  let st' := desc_write st d data in
  os_fds st' = os_fds st ∧ os_descs st' = os_descs st ∧
  os_dirs st' = os_dirs st ∧
  os_cwd st' = os_cwd st ∧ os_path st' = os_path st ∧ os_exes st' = os_exes st.
Proof. unfold desc_write. frame_cases. Qed.





Lemma child_effect_fds st din dout e : os_fds (child_effect st din dout e) = os_fds st.
Proof.
  destruct e as [path image argv | status printed |]; simpl; [| | done].
  - destruct (image argv _) as [n out].
    destruct din as [di|], dout as [do|]; simpl;
      rewrite ?(proj1 (desc_write_frame _ _ _)), ?(proj1 (desc_read_frame _ _ _)); done.
  - destruct dout as [do|]; simpl; [apply desc_write_frame | done].
Qed.

Lemma execute_program_fds resolve st tokens offset argc indes outdes :
  os_fds (execute_program resolve st tokens offset argc indes outdes) = os_fds st.
Proof. apply child_effect_fds. Qed.

Section OpenFacts.
Variable resolve : string → string → string.

Lemma open_succeeds st target creat a :
  resolve (os_cwd st) target ∉ os_dirs st →
  creat = true ∨ is_Some (os_files st !! resolve (os_cwd st) target) →
  let name := resolve (os_cwd st) target in
  let fd := alloc_fd (os_fds st) in
  let d := fresh (dom (os_descs st)) in
  ∃ st1,
    open resolve st (Some target) creat a = (fd, st1) ∧
    os_fds st1 = <[fd := d]> (os_fds st) ∧
    os_descs st1 = <[d := OFD (File name) (can_read a) (can_write a)]> (os_descs st) ∧
    os_pos st1 = <[d := 0%nat]> (os_pos st) ∧
    os_files st1 = match os_files st !! name with
                   | Some _ => os_files st
                   | None => <[name := []]> (os_files st)
                   end ∧
    os_chans st1 = os_chans st ∧ os_dirs st1 = os_dirs st ∧
    os_cwd st1 = os_cwd st ∧ os_path st1 = os_path st ∧ os_exes st1 = os_exes st.
Proof.
  intros Hdir Hex. simpl. unfold open.
  destruct (decide (resolve (os_cwd st) target ∈ os_dirs st)); [done |].
  destruct (os_files st !! resolve (os_cwd st) target) as [c|] eqn:Hf.
  - eexists. split; [reflexivity |]. simpl. by repeat split.
  - destruct Hex as [-> | [? ?]]; [| done].
    eexists. split; [reflexivity |]. simpl. by repeat split.
Qed.

End OpenFacts.

(** ** Token ranges *)

Lemma until_null_Some (l : list string) : until_null (Some <$> l) = l.
Proof. induction l as [|a l IH]; [done |]. rewrite fmap_cons. simpl. by f_equal. Qed.

Lemma tokens_get_token_in_range (tokens : list string) (n : Z) :
  0 ≤ n < tokens_get_length tokens →
  tokens_get_token tokens n = tokens !! Z.to_nat n.
Proof.
  intros H. unfold tokens_get_token.
  destruct (Z.leb_spec 0 n); [| lia].
  destruct (Z.ltb_spec n (tokens_get_length tokens)); [done | lia].
Qed.

Lemma size_sub_small a b : 0 ≤ b ≤ a → a < SIZE_MAX1 → size_sub a b = a - b.
Proof. intros H1 H2. unfold size_sub. apply Z.mod_small. lia. Qed.

Lemma size_add_small a b : 0 ≤ a → 0 ≤ b → a + b < SIZE_MAX1 → size_add a b = a + b.
Proof. intros H0 H1 H2. unfold size_add. apply Z.mod_small. lia. Qed.

Lemma build_argv_range (tokens : list string) (offset argc : Z) :
  0 ≤ offset → 0 ≤ argc →
  offset + argc ≤ tokens_get_length tokens →
  tokens_get_length tokens < SIZE_MAX1 →
  until_null (build_argv tokens offset argc)
    = take (Z.to_nat argc) (drop (Z.to_nat offset) tokens).
Proof.
  intros Ho Ha Hle Hmax.
  assert (build_argv tokens offset argc
          = Some <$> take (Z.to_nat argc) (drop (Z.to_nat offset) tokens)) as ->;
    [| apply until_null_Some].
  unfold build_argv, tokens_get_length in *. apply list_eq. intros i.
  rewrite !list_lookup_fmap.
  destruct (decide (i < Z.to_nat argc)%nat) as [Hi | Hi].
  - rewrite lookup_seq_lt by done. simpl.
    rewrite size_add_small by lia.
    rewrite tokens_get_token_in_range by (unfold tokens_get_length; lia).
    rewrite lookup_take_lt by done. rewrite lookup_drop.
    replace (Z.to_nat (offset + Z.of_nat i)) with (Z.to_nat offset + i)%nat by lia.
    destruct (tokens !! (Z.to_nat offset + i)%nat) eqn:E; [done |].
    apply lookup_ge_None in E. lia.
  - rewrite lookup_seq_ge by lia. rewrite lookup_take_ge by lia. done.
Qed.

Lemma last_token (tokens : list string) :
  tokens ≠ [] → tokens_get_length tokens < SIZE_MAX1 →
  tokens_get_token tokens (size_sub (tokens_get_length tokens) 1) = last tokens.
Proof.
  intros Hne Hmax. unfold tokens_get_length in *.
  assert (0 < length tokens)%nat by (destruct tokens; simpl; [done | lia]).
  rewrite size_sub_small by lia.
  rewrite tokens_get_token_in_range by (unfold tokens_get_length; lia).
  rewrite last_lookup. f_equal. lia.
Qed.

Lemma contains_nonempty (tokens : list string) w :
  is_contains_word tokens w = true → tokens ≠ [].
Proof.
  unfold is_contains_word. intros H ->.
  apply bool_decide_eq_true in H. by apply elem_of_nil in H.
Qed.

(** ** Tokens, prefixes and the dispatch *)

Lemma strtok_run_fields cur s :
  strtok_run cur s = List.filter nonempty (split_colon_run cur s).
Proof.
  revert cur. induction s as [|c rest IH]; intros cur; simpl.
  - by destruct cur.
  - destruct (Ascii.eqb c ":"); [| apply IH].
    simpl. rewrite <- IH. by destruct cur.
Qed.

(** The prefixes [strtok] yields are the non-empty fields of [PATH]. *)
Lemma strtok_all_fields s : strtok_all s = List.filter nonempty (split_colon s).
Proof. apply strtok_run_fields. Qed.

Lemma scan_stage_spec (tokens : list string) n fast :
  0 ≤ fast → tokens_get_length tokens - fast ≤ Z.of_nat n →
  let r := scan_stage n tokens fast in
  fast ≤ r ∧
  (tokens_get_length tokens ≤ r ∨ tokens_get_token tokens r = Some "|") ∧
  ∀ i, fast ≤ i < r → tokens_get_token tokens i ≠ Some "|".
Proof.
  revert fast. induction n as [|n IH]; intros fast H0 Hn; simpl.
  - split; [lia |]. split; [left; lia |]. intros i Hi. lia.
  - destruct (Z.ltb_spec fast (tokens_get_length tokens)) as [Hlt | Hge].
    + destruct (tokens_get_token tokens fast) as [t|] eqn:Ht.
      * destruct (String.eqb_spec t "|") as [-> | Hne].
        -- split; [lia |]. split; [by right |]. intros i Hi. lia.
        -- destruct (IH (fast + 1)) as (Hle & Hstop & Hbefore); [lia | lia |].
           split; [lia |]. split; [done |].
           intros i Hi. destruct (decide (i = fast)) as [-> | Hi'].
           ++ rewrite Ht. congruence.
           ++ apply Hbefore. lia.
      * rewrite tokens_get_token_in_range in Ht by lia.
        apply lookup_ge_None in Ht. unfold tokens_get_length in Hlt. lia.
    + split; [lia |]. split; [left; lia |]. intros i Hi. lia.
Qed.

(** [length tokens] steps are enough for the scan of a stage: it stops at
    the next ["|"] or at the end of the line, having passed no ["|"]. *)
Lemma scan_stage_stops (tokens : list string) fast :
  0 ≤ fast →
  let r := scan_stage (length tokens) tokens fast in
  fast ≤ r ∧
  (tokens_get_length tokens ≤ r ∨ tokens_get_token tokens r = Some "|") ∧
  ∀ i, fast ≤ i < r → tokens_get_token tokens i ≠ Some "|".
Proof.
  intros H0. apply scan_stage_spec; [done |]. unfold tokens_get_length. lia.
Qed.

Section Dispatch.
Variable resolve : string → string → string.

Lemma lookup_from_range (table : list fun_desc) i c :
  lookup_from table i c = -1 ∨
  i ≤ lookup_from table i c < i + Z.of_nat (length table).
Proof.
  revert i. induction table as [|e rest IH]; intros i; [by left |].
  cbn [lookup_from length]. destruct (String.eqb (cmd e) c); [right; lia |].
  destruct (IH (i + 1)) as [H | H]; [by left | right; lia].
Qed.

(** An index that [lookup] returns is an index of [cmd_table]. *)
Lemma lookup_in_table c :
  0 ≤ lookup resolve c → is_Some (cmd_table resolve !! Z.to_nat (lookup resolve c)).
Proof.
  intros H. apply lookup_lt_is_Some.
  destruct c as [c|]; [| simpl in H; lia]. unfold lookup in *.
  destruct (lookup_from_range (cmd_table resolve) 0 c) as [E | E]; [lia |].
  lia.
Qed.

(** A line that does not start with a built-in never ends the process. *)
Lemma launch_returns fuel tokens st r :
  lookup resolve (tokens_get_token tokens 0) < 0 →
  run_line resolve fuel tokens st = Some r →
  ∃ st', r = Returned 0 st'.
Proof.
  intros Hlook. unfold run_line.
  destruct (Z.leb_spec 0 (lookup resolve (tokens_get_token tokens 0))); [lia |].
  destruct (is_contains_word tokens "|").
  - destruct (pipeline resolve fuel st tokens); simpl; [| done].
    intros H'. injection H' as <-. eauto.
  - destruct (is_contains_word tokens ">"); [intros H'; injection H' as <-; eauto |].
    destruct (is_contains_word tokens "<"); intros H'; injection H' as <-; eauto.
Qed.

End Dispatch.


(** ** The program launcher *)

Section Launching.
Variable resolve : string → string → string.
Variable tokenize : bytes → list string.

Lemma search_path_cons st name argv p rest :
  search_path resolve st name argv (p :: rest) =
    if (ABSOLUTE_PATH_CAP <=? String.length (p +:+ "/" +:+ name))%nat then Undefined
    else match execv resolve st (p +:+ "/" +:+ name) with
         | Some image => Replaced (p +:+ "/" +:+ name) image argv
         | None => search_path resolve st name argv rest
         end.
Proof. reflexivity. Qed.

Lemma search_path_skip st name argv pre rest :
  (∀ p, p ∈ pre → fits p name ∧ execv resolve st (p +:+ "/" +:+ name) = None) →
  search_path resolve st name argv (pre ++ rest) = search_path resolve st name argv rest.
Proof.
  induction pre as [|p pre IH]; intros H; [done |].
  rewrite <- app_comm_cons, search_path_cons.
  destruct (H p) as [Hfit Hex]; [left |].
  unfold fits in Hfit.
  destruct (Nat.leb_spec ABSOLUTE_PATH_CAP (String.length (p +:+ "/" +:+ name))); [lia |].
  rewrite Hex. apply IH. intros q Hq. apply H. by right.
Qed.

Lemma child_body_search st tokens offset argc name pathstr :
  size_add argc 1 ≠ 0 →
  tokens_get_token tokens offset = Some name →
  execv resolve st name = None →
  os_path st = Some pathstr →
  child_body resolve st tokens offset argc =
    search_path resolve st name (until_null (build_argv tokens offset argc))
      (strtok_all pathstr).
Proof.
  intros Hargc Hname Hdirect Hpath. unfold child_body.
  destruct (Z.eqb_spec (size_add argc 1) 0); [done |].
  by rewrite Hname, Hdirect, Hpath.
Qed.

(** The search where the C text is defined: when the command name does
    not execute as a path, the child takes the prefixes of [PATH] (its
    non-empty fields between colons, [strtok_all_fields]) from left to
    right, tries [prefix/name] for each, and runs the first that executes;
    the prefixes after it play no part.  (The side conditions are those
    under which the C text is defined: the argument array has a size,
    [PATH] is set, and the candidates tried fit [absolute_path].) *)
Lemma path_search_first_success st tokens offset argc name pathstr pre d post image :
  size_add argc 1 ≠ 0 →
  tokens_get_token tokens offset = Some name →
  execv resolve st name = None →
  os_path st = Some pathstr →
  strtok_all pathstr = pre ++ d :: post →
  (∀ p, p ∈ pre → fits p name ∧ execv resolve st (p +:+ "/" +:+ name) = None) →
  fits d name →
  execv resolve st (d +:+ "/" +:+ name) = Some image →
  child_body resolve st tokens offset argc =
    Replaced (d +:+ "/" +:+ name) image (until_null (build_argv tokens offset argc)).
Proof.
  intros Hargc Hname Hdirect Hpath Hsplit Hpre Hfit Hex.
  rewrite (child_body_search _ _ _ _ name pathstr) by done.
  rewrite Hsplit, search_path_skip, search_path_cons by done.
  unfold fits in Hfit.
  destruct (Nat.leb_spec ABSOLUTE_PATH_CAP (String.length (d +:+ "/" +:+ name))); [lia |].
  by rewrite Hex.
Qed.


Lemma search_path_none st name argv prefixes :
  (∀ p, p ∈ prefixes → fits p name ∧ execv resolve st (p +:+ "/" +:+ name) = None) →
  search_path resolve st name argv prefixes = Exited 0 (not_found_line name).
Proof.
  intros H. rewrite <- (app_nil_r prefixes), search_path_skip by done. reflexivity.
Qed.

(** Where the search is defined: a command whose name executes neither
    directly nor under any prefix of [PATH] makes the child print exactly
    [name: command not found] on its standard output and exit with status
    0; the interpreter goes on with its loop: no line that launches a
    command ends the process, and for a line without operators the line
    counts as processed and the next round follows, the message being on
    the interpreter's standard output.  (Side conditions as for the
    search: [PATH] is set and every candidate fits [absolute_path].) *)
Lemma command_not_found st tokens offset argc indes outdes name pathstr :
  size_add argc 1 ≠ 0 →
  tokens_get_token tokens offset = Some name →
  execv resolve st name = None →
  os_path st = Some pathstr →
  (∀ p, p ∈ strtok_all pathstr →
        fits p name ∧ execv resolve st (p +:+ "/" +:+ name) = None) →
  child_body resolve st tokens offset argc = Exited 0 (not_found_line name) ∧
  execute_program resolve st tokens offset argc indes outdes =
    from_option (λ d, desc_write st d (not_found_line name)) st
      (fd_desc (child_fds st indes outdes) STDOUT_FILENO) ∧
  (∀ fuel line_tokens st0 r,
     lookup resolve (tokens_get_token line_tokens 0) < 0 →
     run_line resolve fuel line_tokens st0 = Some r → ∃ st1, r = Returned 0 st1) ∧
  ∀ fuel interactive c line,
    fgets (machine c) BUF_SIZE = Some (line, st) →
    tokenize line = tokens → offset = 0 → argc = tokens_get_length tokens →
    lookup resolve (Some name) < 0 →
    is_contains_word tokens "|" = false →
    is_contains_word tokens ">" = false →
    is_contains_word tokens "<" = false →
    ∃ c', loop_body resolve tokenize fuel interactive c = Some (Again c') ∧
          processed c' = S (processed c) ∧
          machine c' =
            (if interactive then λ s, printf s (prompt (int_incr (line_num c)))
             else λ s, s) (printf st (not_found_line name)).
Proof.
  intros Hargc Hname Hdirect Hpath Hall.
  assert (Hbody : child_body resolve st tokens offset argc
                  = Exited 0 (not_found_line name)).
  { rewrite (child_body_search _ _ _ _ name pathstr) by done.
    by apply search_path_none. }
  assert (Hexec : ∀ i o, execute_program resolve st tokens offset argc i o =
    from_option (λ d, desc_write st d (not_found_line name)) st
      (fd_desc (child_fds st i o) STDOUT_FILENO)).
  { intros i o. unfold execute_program. by rewrite Hbody. }
  split; [done |]. split; [apply Hexec |].
  split; [intros fuel line_tokens st0 r; apply launch_returns |].
  intros fuel interactive c line Hgets Htok -> -> Hlook Hp Hgt Hlt.
  unfold loop_body. rewrite Hgets. simpl. rewrite Htok.
  unfold run_line. rewrite Hname.
  destruct (Z.leb_spec 0 (lookup resolve (Some name))); [lia |].
  rewrite Hp, Hgt, Hlt. simpl.
  rewrite Hexec, child_fds_plain.
  assert (Hprint : from_option (λ d, desc_write st d (not_found_line name)) st
                     (fd_desc (os_fds st) STDOUT_FILENO)
                   = printf st (not_found_line name)).
  { unfold printf, write. by destruct (fd_desc (os_fds st) STDOUT_FILENO). }
  rewrite Hprint.
  destruct interactive; eexists; (split; [reflexivity |]); by split.
Qed.

End Launching.

(** ** Built-in commands *)

Section Builtins.
Variable resolve : string → string → string.
Variable tokenize : bytes → list string.

(** C8: a line whose first token is [cd] changes the working directory
    to the directory named by token 1: the working directory afterwards is
    the canonical name of that token.  When the token is missing or does
    not name a directory the working directory stays what it was and
    nothing changes at all.  Nothing is written to any stream or file
    either way, and the handler returns 1. *)
Theorem cd_changes_directory_silently fuel tokens st :
  tokens_get_token tokens 0 = Some "cd" →
  ∃ st',
    run_line resolve fuel tokens st = Some (Returned 1 st') ∧
    cmd_cd resolve tokens st = Returned 1 st' ∧
    os_cwd st' = match tokens_get_token tokens 1 with
                 | Some p =>
                     if decide (resolve (os_cwd st) p ∈ os_dirs st)
                     then resolve (os_cwd st) p
                     else os_cwd st
                 | None => os_cwd st
                 end ∧
    (match tokens_get_token tokens 1 with
     | Some p => resolve (os_cwd st) p ∉ os_dirs st
     | None => True
     end → st' = st) ∧
    st' = set_cwd (os_cwd st') st ∧
    os_chans st' = os_chans st ∧ os_files st' = os_files st ∧
    os_fds st' = os_fds st.
Proof.
  intros H0. unfold run_line. rewrite H0. simpl.
  unfold cmd_cd, chdir.
  destruct (tokens_get_token tokens 1) as [p|]; simpl.
  - destruct (decide (resolve (os_cwd st) p ∈ os_dirs st)); simpl.
    + eexists. repeat split; done.
    + exists st. repeat split; try done. by destruct st.
  - exists st. repeat split; try done. by destruct st.
Qed.

(** C9: a line whose first token is [exit] ends the process with status
    0 from inside the handler: the loop stops in the state left by reading
    that line, whatever input remains, and no prompt is recorded after
    it. *)
Theorem exit_terminates k fuel interactive c line st :
  fgets (machine c) BUF_SIZE = Some (line, st) →
  tokens_get_token (tokenize line) 0 = Some "exit" →
  let c' := CFG (line_num c) (prompts c) (processed c) st in
  run_line resolve fuel (tokenize line) st = Some (Terminated 0 st) ∧
  loop_body resolve tokenize fuel interactive c = Some (Halt 0 c') ∧
  main_loop resolve tokenize (S k) fuel interactive c = Some (0, c').
Proof.
  intros Hgets H0 c'.
  assert (Hrun : run_line resolve fuel (tokenize line) st = Some (Terminated 0 st)).
  { unfold run_line. rewrite H0. reflexivity. }
  assert (Hbody : loop_body resolve tokenize fuel interactive c = Some (Halt 0 c')).
  { unfold loop_body. rewrite Hgets. simpl. rewrite Hrun. reflexivity. }
  split; [done |]. split; [done |].
  simpl. rewrite Hbody. reflexivity.
Qed.

End Builtins.

(** ** Redirection *)




Section Redirection.
Variable resolve : string → string → string.





End Redirection.

(** ** Pipelines *)

(** ** Stability *)

Lemma stable_refl st : stable st st.
Proof. by repeat split. Qed.

Lemma stable_trans st1 st2 st3 : stable st1 st2 → stable st2 st3 → stable st1 st3.
Proof.
  intros (F1 & D1 & E1) (F2 & D2 & E2). repeat split; [congruence | congruence |].
  intros p Hp. by apply E2, E1.
Qed.

Lemma desc_read_stable st d n : stable st (desc_read st d n).2.
Proof.
  destruct (desc_read_frame st d n) as (F & D & Fi & _).
  split; [done | split; [done |]]. intros p. by rewrite Fi.
Qed.

Lemma desc_write_stable st d data : stable st (desc_write st d data).
Proof.
  destruct (desc_write_frame st d data) as (F & D & _).
  split; [done | split; [done |]]. intros p Hp.
  unfold desc_write. destruct data as [|b data]; [done |].
  destruct (os_descs st !! d) as [[[name | i | dn] rd []]|]; try done.
  - destruct (os_files st !! name); [| done]. simpl.
    destruct (decide (name = p)) as [-> | Hne];
      [by rewrite lookup_insert_eq | by rewrite lookup_insert_ne].
  - by destruct (os_chans st !! i).
Qed.

Lemma desc_rewind_stable st d : stable st (desc_rewind st d).
Proof. unfold desc_rewind. frame_cases; apply stable_refl. Qed.

Lemma desc_truncate_stable st d : stable st (desc_truncate st d).
Proof.
  unfold desc_truncate.
  destruct (os_descs st !! d) as [[[name | i | dn] rd []]|]; try apply stable_refl.
  destruct (os_files st !! name); [| apply stable_refl].
  split; [done | split; [done |]]. simpl. intros p Hp.
  destruct (decide (name = p)) as [-> | Hne];
    [by rewrite lookup_insert_eq | by rewrite lookup_insert_ne].
Qed.

Lemma read_stable st fd n : stable st (read st fd n).2.
Proof.
  unfold read. destruct (fd_desc _ _); [apply desc_read_stable | apply stable_refl].
Qed.

Lemma write_stable st fd data : stable st (write st fd data).
Proof.
  unfold write. destruct (fd_desc _ _); [apply desc_write_stable | apply stable_refl].
Qed.

Lemma lseek0_stable st fd : stable st (lseek0 st fd).
Proof.
  unfold lseek0. destruct (fd_desc _ _); [apply desc_rewind_stable | apply stable_refl].
Qed.

Lemma ftruncate0_stable st fd : stable st (ftruncate0 st fd).
Proof.
  unfold ftruncate0. destruct (fd_desc _ _); [apply desc_truncate_stable | apply stable_refl].
Qed.

Lemma child_effect_stable st din dout e : stable st (child_effect st din dout e).
Proof.
  destruct e as [path image argv | status printed |]; simpl; [| | apply stable_refl].
  - destruct (image argv _) as [n out].
    eapply stable_trans with (st2 := from_option (λ d, (desc_read st d n).2) st din).
    + destruct din; simpl; [apply desc_read_stable | apply stable_refl].
    + destruct dout; simpl; [apply desc_write_stable | apply stable_refl].
  - destruct dout; simpl; [apply desc_write_stable | apply stable_refl].
Qed.

Lemma execute_program_stable resolve st tokens offset argc indes outdes :
  stable st (execute_program resolve st tokens offset argc indes outdes).
Proof. apply child_effect_stable. Qed.

(** ** What a write leaves alone *)

Lemma desc_write_other_file st d data q :
  off_file st (Some d) q →
  os_files (desc_write st d data) !! q = os_files st !! q.
Proof.
  intros Hoff. unfold desc_write. destruct data as [|b data]; [done |].
  destruct (os_descs st !! d) as [[[name | i | dn] rd []]|] eqn:Hd; try done.
  - destruct (os_files st !! name); [| done]. simpl.
    apply lookup_insert_ne. intros ->. by eapply (Hoff d).
  - by destruct (os_chans st !! i).
Qed.

Lemma write_other_file st fd data q :
  off_file st (fd_desc (os_fds st) fd) q →
  os_files (write st fd data) !! q = os_files st !! q.
Proof.
  intros Hoff. unfold write. destruct (fd_desc _ _) as [d|] eqn:E; [| done].
  by apply desc_write_other_file.
Qed.

Lemma desc_read_spec st d n :
  (desc_read st d n).1 = take n (avail st d) ∧
  avail (desc_read st d n).2 d = drop n (avail st d).
Proof.
  unfold desc_read, avail.
  destruct (os_descs st !! d) as [[[name | i | dn] [] wr]|] eqn:Hd; simpl;
    rewrite ?Hd, ?take_nil, ?drop_nil; try done.
  - split; [done |].
    destruct (os_files st !! name) as [c|]; [| by rewrite drop_nil].
    unfold pos_of at 1. simpl. rewrite lookup_insert_eq. simpl.
    rewrite drop_drop. rewrite length_take, length_drop.
    destruct (decide (n ≤ length c - pos_of st d)%nat).
    + f_equal. lia.
    + rewrite !drop_ge by lia. done.
  - destruct (os_chans st !! i) as [ch|] eqn:Hc; simpl.
    + rewrite Hd. simpl. by rewrite lookup_insert_eq.
    + by rewrite Hd, Hc, take_nil, drop_nil.
Qed.

(** Writing through [dd] does not change what [ds] can deliver, as long
    as [dd] is not open on the file of [ds]. *)
Lemma desc_write_avail st dd data ds :
  (∀ name rd wr, os_descs st !! ds = Some (OFD (File name) rd wr) →
                 off_file st (Some dd) name) →
  avail (desc_write st dd data) ds = avail st ds.
Proof.
  intros Hsep. unfold avail.
  rewrite (proj1 (proj2 (desc_write_frame st dd data))).
  destruct (os_descs st !! ds) as [[[name | i | dn] [] wr]|] eqn:Hd; try done.
  - rewrite desc_write_other_file by eauto.
    replace (pos_of (desc_write st dd data) ds) with (pos_of st ds); [done |].
    unfold desc_write. destruct data as [|b data]; [done |].
    destruct (os_descs st !! dd) as [[[q | j | dq] rd' []]|] eqn:Hdd; try done.
    + destruct (os_files st !! q); [| done].
      unfold pos_of. simpl. rewrite lookup_insert_ne; [done |]. intros ->.
      by apply (Hsep name true wr eq_refl ds _ eq_refl Hd).
    + by destruct (os_chans st !! j).
  - unfold desc_write. destruct data as [|b data]; [done |].
    destruct (os_descs st !! dd) as [[[q | j | dq] rd' []]|] eqn:Hdd; try done.
    + by destruct (os_files st !! q).
    + destruct (os_chans st !! j) as [ch|] eqn:Hj; [| done]. simpl.
      destruct (decide (j = i)) as [-> | Hne].
      * by rewrite lookup_insert_eq, Hj.
      * by rewrite lookup_insert_ne.
Qed.

(** ** The copy loop ends *)

Lemma off_file_stable st st' d q : stable st st' → off_file st d q → off_file st' d q.
Proof. intros (_ & D & _) H d' o Hd Ho. rewrite D in Ho. eauto. Qed.

Lemma off_file_fd_stable st st' fd q :
  stable st st' →
  off_file st (fd_desc (os_fds st) fd) q → off_file st' (fd_desc (os_fds st') fd) q.
Proof.
  intros Hs H. rewrite (proj1 Hs). by apply (off_file_stable st).
Qed.

Lemma apart_stable st st' src dst : stable st st' → apart st src dst → apart st' src dst.
Proof.
  intros Hs H ds name rd wr Hsrc Hd.
  destruct Hs as (F & D & E). rewrite F in *. rewrite D in Hd.
  apply (off_file_stable st); [by repeat split | eauto].
Qed.

Lemma read_files st fd n : os_files (read st fd n).2 = os_files st.
Proof.
  unfold read. destruct (fd_desc _ _); [apply desc_read_frame | done].
Qed.

Lemma read_data st fd n :
  (read st fd n).1 ≠ [] →
  ∃ ds, fd_desc (os_fds st) fd = Some ds ∧
        (read st fd n).1 = take n (avail st ds) ∧
        avail (read st fd n).2 ds = drop n (avail st ds).
Proof.
  unfold read. destruct (fd_desc _ _) as [ds|]; [| done]. intros _.
  exists ds. split; [done |]. apply desc_read_spec.
Qed.

Lemma copy_step_decreases st src dst n :
  apart st src dst →
  (read st src n).1 ≠ [] →
  (remaining (write (read st src n).2 dst (read st src n).1) src < remaining st src)%nat.
Proof.
  intros Hapart Hne.
  destruct (read_data st src n Hne) as (ds & Hsrc & Hbuf & Hrest).
  pose proof (read_stable st src n) as Hs1.
  pose proof (write_stable (read st src n).2 dst (read st src n).1) as Hs2.
  unfold remaining.
  rewrite (proj1 Hs2), (proj1 Hs1), Hsrc. simpl.
  assert (Hav : avail (write (read st src n).2 dst (read st src n).1) ds
                = drop n (avail st ds)).
  { rewrite <- Hrest. unfold write.
    destruct (fd_desc (os_fds (read st src n).2) dst) as [dd|] eqn:Hdst; [| done].
    apply desc_write_avail. intros name rd wr Hd.
    apply (apart_stable st _ src dst Hs1) in Hapart.
    rewrite <- Hdst. apply (Hapart ds name rd wr); [| done].
    by rewrite (proj1 Hs1). }
  rewrite Hav, length_drop.
  rewrite Hbuf in Hne.
  destruct (avail st ds) as [|b l]; [by rewrite take_nil in Hne |].
  destruct n; [done |]. simpl. lia.
Qed.

Lemma copy_loop_total m st src dst :
  apart st src dst →
  (remaining st src ≤ m)%nat →
  ∃ st',
    (∀ fuel, (m < fuel)%nat → copy_loop fuel st src dst = Some st') ∧
    stable st st' ∧
    ∀ q, off_file st (fd_desc (os_fds st) dst) q →
         os_files st' !! q = os_files st !! q.
Proof.
  revert st. induction m as [|m IH]; intros st Hapart Hm.
  - destruct (decide ((read st src (Z.to_nat BUF_SIZE)).1 = [])) as [He | Hne].
    + exists (read st src (Z.to_nat BUF_SIZE)).2.
      split; [| split; [apply read_stable |]].
      * intros [|fuel] Hf; [lia |]. simpl.
        destruct (read st src (Z.to_nat BUF_SIZE)) as [buf st1]. simpl in *.
        by rewrite He.
      * intros q _. by rewrite read_files.
    + pose proof (copy_step_decreases st src dst _ Hapart Hne). lia.
  - destruct (decide ((read st src (Z.to_nat BUF_SIZE)).1 = [])) as [He | Hne].
    + exists (read st src (Z.to_nat BUF_SIZE)).2.
      split; [| split; [apply read_stable |]].
      * intros [|fuel] Hf; [lia |]. simpl.
        destruct (read st src (Z.to_nat BUF_SIZE)) as [buf st1]. simpl in *.
        by rewrite He.
      * intros q _. by rewrite read_files.
    + pose proof (copy_step_decreases st src dst _ Hapart Hne) as Hdec.
      pose proof (read_stable st src (Z.to_nat BUF_SIZE)) as Hs1.
      pose proof (write_stable (read st src (Z.to_nat BUF_SIZE)).2 dst
                    (read st src (Z.to_nat BUF_SIZE)).1) as Hs2.
      pose proof (stable_trans _ _ _ Hs1 Hs2) as Hs.
      destruct (IH _ (apart_stable _ _ _ _ Hs Hapart)) as (st' & Hrun & Hst & Hframe);
        [lia |].
      exists st'. split; [| split; [by eapply stable_trans |]].
      * intros [|fuel] Hf; [lia |]. simpl.
        destruct (read st src (Z.to_nat BUF_SIZE)) as [buf st1]. simpl in *.
        destruct buf as [|b buf]; [done |]. apply Hrun. lia.
      * intros q Hq.
        rewrite Hframe by (by apply (off_file_fd_stable st)).
        rewrite write_other_file by (by apply (off_file_fd_stable st)).
        by rewrite read_files.
Qed.

(** ** The stage loop *)

Lemma piping_stable st st' fi fo pin pout :
  stable st st' → piping st fi fo pin pout → piping st' fi fo pin pout.
Proof.
  intros (F & D & E) (di & do & H1 & H2 & H3 & H4 & H5 & H6).
  exists di, do. rewrite F, D. auto 10.
Qed.

Lemma piping_truncate st fi fo pin pout :
  piping st fi fo pin pout → os_files (ftruncate0 st fo) !! pout = Some [].
Proof.
  intros (di & do & H1 & H2 & H3 & H4 & H5 & [c H6]).
  unfold ftruncate0, desc_truncate. rewrite H2, H4, H6. simpl.
  by rewrite lookup_insert_eq.
Qed.

Lemma piping_apart st fi fo pin pout : piping st fi fo pin pout → apart st fo fi.
Proof.
  intros (di & do & H1 & H2 & H3 & H4 & H5 & H6) ds name rd wr Hsrc Hd d' o Hdst Ho.
  assert (ds = do) as -> by congruence.
  assert (name = pout) as -> by congruence.
  assert (d' = di) as -> by congruence.
  assert (o = OFD (File pin) true true) as -> by congruence.
  simpl. congruence.
Qed.

Section Pipelines.
Variable resolve : string → string → string.

Lemma stages_total tokens fi fo pin pout n :
  ∀ st slow fast,
    piping st fi fo pin pout →
    ∃ st' fuel0,
      (∀ fuel, (fuel0 ≤ fuel)%nat →
               stages resolve fuel n st tokens slow fast fi fo = Some st') ∧
      stable st st' ∧
      (os_files st !! pout = Some [] ∨ (0 < n)%nat → os_files st' !! pout = Some []).
Proof.
  induction n as [|n IH]; intros st slow fast Hp.
  - exists st, 0%nat. split; [done |]. split; [apply stable_refl |].
    intros [H | H]; [done | lia].
  - set (fast1 := scan_stage (length tokens) tokens fast).
    set (sa := lseek0 st fi).
    set (sb := execute_program resolve sa tokens slow (size_sub fast1 slow) fi fo).
    set (sc := ftruncate0 sb fi).
    set (sd := lseek0 sc fo).
    assert (Hsd : stable st sd).
    { eapply stable_trans; [apply lseek0_stable |].
      eapply stable_trans; [apply execute_program_stable |].
      eapply stable_trans; [apply ftruncate0_stable | apply lseek0_stable]. }
    pose proof (piping_stable _ _ _ _ _ _ Hsd Hp) as Hpd.
    destruct (copy_loop_total (remaining sd fo) sd fo fi (piping_apart _ _ _ _ _ Hpd))
      as (se & Hcopy & Hse & _); [done |].
    pose proof (piping_stable _ _ _ _ _ _ Hse Hpd) as Hpe.
    pose proof (piping_truncate _ _ _ _ _ Hpe) as Hempty.
    pose proof (ftruncate0_stable se fo) as Hsf.
    destruct (IH (ftruncate0 se fo) (size_add fast1 1) (size_add fast1 1)
                (piping_stable _ _ _ _ _ _ Hsf Hpe))
      as (st' & fuel0 & Hrun & Hst & Hout).
    exists st', (S (remaining sd fo) `max` fuel0)%nat.
    split; [| split].
    + intros fuel Hf. simpl. fold fast1 sa sb sc sd.
      rewrite Hcopy by lia. simpl. apply Hrun. lia.
    + eapply stable_trans; [apply Hsd |].
      eapply stable_trans; [apply Hse |].
      eapply stable_trans; [apply Hsf | apply Hst].
    + intros _. apply Hout. by left.
Qed.


Lemma pipeline_total st tokens :
  resolve (os_cwd st) INPUT_FILE ≠ resolve (os_cwd st) OUTPUT_FILE →
  resolve (os_cwd st) INPUT_FILE ∉ os_dirs st →
  resolve (os_cwd st) OUTPUT_FILE ∉ os_dirs st →
  stdin_elsewhere resolve st →
  ∃ st' fuel0,
    (∀ fuel, (fuel0 ≤ fuel)%nat → pipeline resolve fuel st tokens = Some st') ∧
    os_files st' !! resolve (os_cwd st) OUTPUT_FILE = Some [] ∧
    os_fds st' = os_fds st.
Proof.
  intros Hne Hdin Hdout (d0 & o & Hfd0 & Hd0 & Hoin & Hoout).
  set (pin := resolve (os_cwd st) INPUT_FILE) in *.
  set (pout := resolve (os_cwd st) OUTPUT_FILE) in *.
  (* the two opens *)
  destruct (open_succeeds resolve st INPUT_FILE true O_RDWR Hdin (or_introl eq_refl))
    as (st1 & Hopen1 & Hfds1 & Hdescs1 & _ & _ & _ & Hdirs1 & Hcwd1 & _).
  fold pin in Hdescs1.
  destruct (alloc_fd_fresh (os_fds st)) as [Hfree1 Hnn1].
  set (fi := alloc_fd (os_fds st)) in *.
  set (di := fresh (dom (os_descs st))) in *.
  assert (Hdout1 : resolve (os_cwd st1) OUTPUT_FILE ∉ os_dirs st1)
    by (by rewrite Hcwd1, Hdirs1).
  destruct (open_succeeds resolve st1 OUTPUT_FILE true O_RDWR Hdout1 (or_introl eq_refl))
    as (st2 & Hopen2 & Hfds2 & Hdescs2 & _ & Hfiles2 & _).
  rewrite Hcwd1 in Hdescs2, Hfiles2. fold pout in Hdescs2, Hfiles2.
  destruct (alloc_fd_fresh (os_fds st1)) as [Hfree2 Hnn2].
  set (fo := alloc_fd (os_fds st1)) in *.
  set (do := fresh (dom (os_descs st1))) in *.
  assert (Hdi : os_descs st !! di = None) by apply not_elem_of_dom, is_fresh.
  assert (Hdo : os_descs st1 !! do = None) by apply not_elem_of_dom, is_fresh.
  assert (Hfio : fo ≠ fi).
  { intros E. rewrite E, Hfds1, lookup_insert_eq in Hfree2. done. }
  assert (Hdio : do ≠ di).
  { intros E. rewrite E, Hdescs1, lookup_insert_eq in Hdo. done. }
  assert (Hfi0 : fi ≠ STDIN_FILENO) by (intros E; rewrite E in Hfree1; congruence).
  assert (Hfo0 : fo ≠ STDIN_FILENO).
  { intros E. rewrite E, Hfds1, lookup_insert_ne in Hfree2 by done. congruence. }
  assert (Hd0i : di ≠ d0) by (intros E; rewrite E in Hdi; congruence).
  assert (Hd0o : do ≠ d0).
  { intros E. rewrite E, Hdescs1, lookup_insert_ne in Hdo by done. congruence. }
  assert (Hp2 : piping st2 fi fo pin pout).
  { exists di, do. rewrite Hfds2, Hdescs2, Hfds1, Hdescs1, !fd_desc_nonneg by done.
    split; [rewrite lookup_insert_ne by done; by rewrite lookup_insert_eq |].
    split; [by rewrite lookup_insert_eq |].
    split; [rewrite lookup_insert_ne by done; by rewrite lookup_insert_eq |].
    split; [by rewrite lookup_insert_eq |].
    split; [done |].
    rewrite Hfiles2. destruct (os_files st1 !! pout) eqn:E; [by rewrite E |].
    by rewrite lookup_insert_eq. }
  assert (Hstdin2 : ∀ q, q = pin ∨ q = pout →
                         off_file st2 (fd_desc (os_fds st2) STDIN_FILENO) q).
  { intros q Hq d' o' Hd' Ho'.
    rewrite Hfds2, Hfds1, fd_desc_nonneg in Hd' by done.
    rewrite !lookup_insert_ne in Hd' by done.
    assert (d' = d0) as -> by congruence.
    rewrite Hdescs2, Hdescs1, !lookup_insert_ne in Ho' by done.
    assert (o' = o) as -> by congruence.
    by destruct Hq as [-> | ->]. }
  (* truncations and stages *)
  set (s3 := ftruncate0 (ftruncate0 st2 fi) fo).
  assert (Hs3 : stable st2 s3).
  { eapply stable_trans; apply ftruncate0_stable. }
  pose proof (piping_stable _ _ _ _ _ _ Hs3 Hp2) as Hp3.
  destruct (stages_total tokens fi fo pin pout
              (Z.to_nat (size_add 1 (count_pipes tokens))) s3 0 0 Hp3)
    as (s4 & fuel1 & Hstages & Hs4 & Hout4).
  assert (Hempty4 : os_files s4 !! pout = Some []).
  { apply Hout4. left. unfold s3.
    apply (piping_truncate _ fi fo pin pout).
    by apply (piping_stable st2); [apply ftruncate0_stable |]. }
  (* the final loop *)
  set (s5 := lseek0 s4 fi).
  pose proof (lseek0_stable s4 fi) as Hs5. fold s5 in Hs5.
  assert (H25 : stable st2 s5).
  { eapply stable_trans; [apply Hs3 |]. eapply stable_trans; [apply Hs4 | apply Hs5]. }
  assert (Hapart5 : apart s5 fi STDIN_FILENO).
  { intros ds name rd wr Hsrc Hd.
    destruct (piping_stable _ _ _ _ _ _ H25 Hp2) as (di' & do' & G1 & G2 & G3 & G4 & _).
    assert (ds = di') as -> by congruence.
    assert (name = pin) as -> by congruence.
    apply (off_file_fd_stable st2); [done |]. apply Hstdin2. by left. }
  destruct (copy_loop_total (remaining s5 fi) s5 fi STDIN_FILENO Hapart5)
    as (s6 & Hcopy & Hs6 & Hframe6); [done |].
  exists (close (close s6 fi) fo), (fuel1 `max` S (remaining s5 fi))%nat.
  split; [| split].
  - intros fuel Hf. unfold pipeline.
    rewrite Hopen1, Hopen2. fold s3.
    rewrite Hstages by lia. simpl. fold s5.
    rewrite Hcopy by lia. done.
  - simpl. rewrite Hframe6.
    + unfold s5, lseek0. destruct (fd_desc (os_fds s4) fi); [| done].
      unfold desc_rewind. by destruct (os_descs s4 !! _) as [[[] ? ?]|].
    + apply (off_file_fd_stable st2); [done |]. apply Hstdin2. by right.
  - simpl. rewrite (proj1 Hs6), (proj1 H25), Hfds2, Hfds1.
    assert (Hfree2' : os_fds st !! fo = None).
    { rewrite Hfds1, lookup_insert_ne in Hfree2; [done | congruence]. }
    rewrite delete_insert_ne by congruence.
    rewrite (delete_insert_id _ fi) by done.
    by rewrite delete_insert_id.
Qed.

(** C2, as the code has it: once a pipeline line (one that does not start
    with a built-in) is through, with enough fuel for its copy loops, the
    output scratch file is empty and both scratch descriptors are closed.
    Nothing of the kind holds of the input scratch file, which keeps the
    bytes of the final copy. *)
Theorem pipeline_leaves_output_buffer_empty tokens st :
  lookup resolve (tokens_get_token tokens 0) < 0 →
  is_contains_word tokens "|" = true →
  resolve (os_cwd st) INPUT_FILE ≠ resolve (os_cwd st) OUTPUT_FILE →
  resolve (os_cwd st) INPUT_FILE ∉ os_dirs st →
  resolve (os_cwd st) OUTPUT_FILE ∉ os_dirs st →
  stdin_elsewhere resolve st →
  ∃ st' fuel0,
    (∀ fuel, (fuel0 ≤ fuel)%nat →
             run_line resolve fuel tokens st = Some (Returned 0 st')) ∧
    os_files st' !! resolve (os_cwd st) OUTPUT_FILE = Some [] ∧
    os_fds st' = os_fds st.
Proof.
  intros Hlook Hpipe Hne Hdin Hdout Hstdin.
  destruct (pipeline_total st tokens Hne Hdin Hdout Hstdin)
    as (st' & fuel0 & Hrun & Hout & Hfds).
  exists st', fuel0. split; [| done].
  intros fuel Hf. unfold run_line.
  destruct (Z.leb_spec 0 (lookup resolve (tokens_get_token tokens 0))); [lia |].
  rewrite Hpipe, Hrun by done. done.
Qed.

End Pipelines.

(** ** The prompt *)

Section Prompt.
Variable resolve : string → string → string.
Variable tokenize : bytes → list string.

Lemma int_incr_small n : -2 ^ 31 ≤ n < 2 ^ 31 - 1 → int_incr n = n + 1.
Proof.
  intros H. unfold int_incr.
  rewrite Z.mod_small by lia. lia.
Qed.

Lemma loop_body_again fuel interactive c c' :
  loop_body resolve tokenize fuel interactive c = Some (Again c') →
  processed c' = S (processed c) ∧
  if interactive
  then line_num c' = int_incr (line_num c) ∧
       prompts c' = prompts c ++ [int_incr (line_num c)] ∧
       ∃ st, machine c' = printf st (prompt (int_incr (line_num c)))
  else line_num c' = line_num c ∧ prompts c' = prompts c.
Proof.
  unfold loop_body.
  destruct (fgets (machine c) BUF_SIZE) as [[line st]|]; [| done].
  destruct (run_line resolve fuel (tokenize line) st) as [[ret st' | status st']|];
    simpl; [| done | done].
  intros H. injection H as <-.
  destruct interactive; simpl; eauto.
Qed.

Lemma loop_body_halt fuel interactive c status c' :
  loop_body resolve tokenize fuel interactive c = Some (Halt status c') →
  processed c' = processed c ∧ line_num c' = line_num c ∧ prompts c' = prompts c.
Proof.
  unfold loop_body.
  destruct (fgets (machine c) BUF_SIZE) as [[line st]|].
  - destruct (run_line resolve fuel (tokenize line) st) as [[ret st' | st_status st']|];
      simpl; [done | | done].
    intros H. by injection H as <- <-.
  - intros H. by injection H as <- <-.
Qed.

Lemma prompts_in_step_again fuel interactive c c' :
  loop_body resolve tokenize fuel interactive c = Some (Again c') →
  Z.of_nat (processed c') < 2 ^ 31 →
  prompts_in_step interactive c → prompts_in_step interactive c'.
Proof.
  intros Hbody Hbound Hinv.
  destruct (loop_body_again _ _ _ _ Hbody) as [Hproc Hrest].
  unfold prompts_in_step in *. destruct interactive.
  - destruct Hrest as (Hnum & Hpr & _). destruct Hinv as [Hn Hp].
    rewrite Hn in Hnum, Hpr. rewrite Hproc in Hbound.
    rewrite int_incr_small in Hnum, Hpr by lia.
    rewrite Hproc. split; [rewrite Hnum; clear; lia |].
    rewrite Hpr, Hp, (seq_S (S (processed c))), fmap_app.
    f_equal. rewrite list_fmap_singleton. f_equal. lia.
  - destruct Hrest as [_ Hpr]. by rewrite Hpr.
Qed.

Lemma main_start_in_step st :
  prompts_in_step (shell_is_interactive st) (main_start st) ∧
  processed (main_start st) = 0%nat.
Proof.
  unfold main_start, prompts_in_step.
  by destruct (shell_is_interactive st).
Qed.

Lemma rounds_in_step k : ∀ fuel interactive c c',
  rounds resolve tokenize k fuel interactive c = Some c' →
  Z.of_nat (processed c + k) < 2 ^ 31 →
  prompts_in_step interactive c →
  processed c' = (processed c + k)%nat ∧ prompts_in_step interactive c'.
Proof.
  induction k as [|k IH]; intros fuel interactive c c' Hr Hb Hinv; simpl in Hr.
  - injection Hr as <-. split; [lia | done].
  - destruct (loop_body resolve tokenize fuel interactive c) as [[c1 | ? ?]|] eqn:Hbody;
      [| done | done].
    destruct (loop_body_again _ _ _ _ Hbody) as [Hproc _].
    destruct (IH fuel interactive c1 c' Hr) as [Hp' Hinv'].
    + rewrite Hproc. lia.
    + apply (prompts_in_step_again fuel interactive c); [done | lia | done].
    + split; [lia | done].
Qed.

(** The record of prompt numbers: at every head of the loop that a run
    reaches, the numbers recorded so far are [0, 1, ..., k] on a
    terminal, [k] being the number of lines processed (one prompt before
    the first line and one after each processed line, each later one a
    [printf] of the next number), and none at all when standard input is
    not a terminal; a round that ends the process prints no prompt. *)
Lemma prompt_numbering k fuel st c :
  rounds resolve tokenize k fuel (shell_is_interactive st) (main_start st) = Some c →
  Z.of_nat k < 2 ^ 31 →
  processed c = k ∧
  (if shell_is_interactive st
   then line_num c = Z.of_nat k ∧ prompts c = Z.of_nat <$> seq 0 (S k)
   else prompts c = []) ∧
  (∀ status c', loop_body resolve tokenize fuel (shell_is_interactive st) c
                  = Some (Halt status c') → prompts c' = prompts c) ∧
  (∀ c', loop_body resolve tokenize fuel (shell_is_interactive st) c = Some (Again c') →
         if shell_is_interactive st
         then prompts c' = prompts c ++ [int_incr (line_num c)] ∧
              ∃ st', machine c' = printf st' (prompt (int_incr (line_num c)))
         else prompts c' = prompts c).
Proof.
  intros Hr Hb.
  destruct (main_start_in_step st) as [Hinv0 Hp0].
  destruct (rounds_in_step k fuel _ _ c Hr) as [Hproc Hinv]; [lia | done |].
  rewrite Hp0 in Hproc. simpl in Hproc.
  split; [done |]. split; [| split].
  - unfold prompts_in_step in Hinv. rewrite Hproc in Hinv. done.
  - intros status c' Hh. by apply loop_body_halt in Hh as (_ & _ & ?).
  - intros c' Ha. apply loop_body_again in Ha as [_ Ha].
    destruct (shell_is_interactive st); [| by destruct Ha].
    by destruct Ha as (_ & ? & ?).
Qed.

End Prompt.

(** ** The examples, run *)

(** C1: the pipeline [echo abc | tr a-z A-Z], typed at a terminal with
    standard output on stream 1, leaves stream 1 without a byte: the final
    loop writes the contents of the input scratch file to descriptor 0,
    that is to the terminal the line came from; with standard input a
    pipe, open for reading only, that write fails and the result appears
    nowhere. *)
Theorem pipeline_result_goes_to_descriptor_0 :
  (∃ st', run_line plain_resolve 4 demo_pipeline (demo_machine true [])
            = Some (Returned 0 st') ∧
          written st' 1 = [] ∧
          written st' 0 = replicate 8 nul ++ str "ABC" ++ [newline]) ∧
  (∃ st', run_line plain_resolve 4 demo_pipeline (demo_machine false [])
            = Some (Returned 0 st') ∧
          written st' 1 = [] ∧ written st' 0 = []).
Proof.
  split; eexists; (split; [vm_compute; reflexivity |]); by vm_compute.
Qed.

(** C3: the search of [PATH] stops working where a candidate does not
    fit.  With a first directory of 201 bytes on [PATH], followed by
    [/bin] and [/usr/bin], the command [echo] is not found although
    [/bin/echo] executes: [strcpy] and [strcat] run over the 128 bytes of
    [absolute_path] at the first candidate, the child has no defined
    behaviour from there on, and in the embedding nothing is run and
    nothing printed; with the usual [PATH] the same line prints [hi].
    With [PATH] not set [strtok] is handed the null pointer of [getenv],
    and a command name of 200 bytes overruns the buffer at the first
    prefix. *)
Theorem path_search_overruns_absolute_path :
  strtok_all long_path = ["/" +:+ long_name; "/bin"; "/usr/bin"] ∧
  execv plain_resolve (demo_with_path true [] (Some long_path)) "echo" = None ∧
  execv plain_resolve (demo_with_path true [] (Some long_path)) "/bin/echo" = Some echo ∧
  ¬ fits ("/" +:+ long_name) "echo" ∧
  child_body plain_resolve (demo_with_path true [] (Some long_path)) ["echo"; "hi"] 0 2
    = Undefined ∧
  (∃ st', run_line plain_resolve 0 ["echo"; "hi"] (demo_with_path true [] (Some long_path))
            = Some (Returned 0 st') ∧
          written st' 1 = []) ∧
  (∃ st', run_line plain_resolve 0 ["echo"; "hi"] (demo_machine true [])
            = Some (Returned 0 st') ∧
          written st' 1 = str "hi" ++ [newline]) ∧
  child_body plain_resolve (demo_with_path true [] None) ["echo"; "hi"] 0 2 = Undefined ∧
  child_body plain_resolve (demo_machine true []) [long_name] 0 1 = Undefined.
Proof.
  split; [by vm_compute |]. split; [by vm_compute |]. split; [by vm_compute |].
  split; [unfold fits; intros H; apply Nat.ltb_lt in H; by vm_compute in H |].
  split; [by vm_compute |].
  split; [eexists; split; [vm_compute; reflexivity | by vm_compute] |].
  split; [eexists; split; [vm_compute; reflexivity | by vm_compute] |].
  split; by vm_compute.
Qed.

(** C4: three runs of [main] in which a command exists nowhere and the
    claim does not come true, and one in which it does.  A name of 200
    bytes, typed at the console: no message at all, only the two prompts
    (the candidate [/bin/name] overruns [absolute_path]).  The line
    [nosuch < f], typed at the console: the message is printed, but the
    interpreter goes on with the line held by [f], not with the next line
    typed, which is never read.  The line [nosuch] with standard output
    not a terminal: the child writes the prompt it inherited in the buffer
    of [stdout] before the message, and the prompt comes out again when
    the interpreter exits.  The line [nosuch] typed at the console: the
    message, between the prompts. *)
Theorem command_not_found_lost :
  (∃ st', buffered_main plain_resolve words 3 0 (demo_console (str long_name ++ [newline]))
            = Some (0, st') ∧
          written st' 0 = str "0: 1: ") ∧
  (∃ st', buffered_main plain_resolve words 4 0 demo_session = Some (0, st') ∧
          written st' 0
          = str "0: nosuch: command not found" ++ [newline]
            ++ str "1: from-file" ++ [newline] ++ str "2: " ∧
          (c_in <$> os_chans st' !! 0%nat) = Some (str "pwd" ++ [newline])) ∧
  (∃ st', buffered_main plain_resolve words 3 0
            (demo_machine true (str "nosuch" ++ [newline])) = Some (0, st') ∧
          written st' 1
          = str "0: nosuch: command not found" ++ [newline] ++ str "0: 1: ") ∧
  (∃ st', buffered_main plain_resolve words 3 0
            (demo_console (str "nosuch" ++ [newline])) = Some (0, st') ∧
          written st' 0
          = str "0: " ++ str "nosuch: command not found" ++ [newline] ++ str "1: ").
Proof.
  split; [| split; [| split]]; eexists; (split; [vm_compute; reflexivity |]);
    by vm_compute.
Qed.

(** C7: with standard input a terminal and standard output anything else,
    the prompts are not written when they are printed.  [stdout] is then
    fully buffered and [shell.c] never flushes it: nothing has reached
    descriptor 1 when the first line is read; a child that ends in [exit]
    writes out the prompts it inherited; and the interpreter writes them
    all again when it exits.  After the lines [pwd] and [nosuch]
    descriptor 1 has received [0: ] and [1: ] twice.  At the console
    (descriptors 0 and 1 one terminal) each prompt appears once, before
    the read it announces, in this embedding as in the one without the
    buffer; with standard input a pipe no prompt is printed. *)
Theorem prompts_held_back_and_repeated :
  shell_is_interactive (demo_machine true two_lines) = true ∧
  isatty (demo_machine true two_lines) STDOUT_FILENO = false ∧
  (prompt 0 = str "0: " ∧
   buffered_printf (PROC (demo_machine true two_lines) []) (prompt 0)
   = PROC (demo_machine true two_lines) (str "0: ")) ∧
  (∃ st', buffered_main plain_resolve words 4 0 (demo_machine true two_lines)
            = Some (0, st') ∧
          written st' 1
          = (str "0: /home" ++ [newline] ++ str "1: nosuch: command not found" ++ [newline])
            ++ (str "0: /home" ++ [newline] ++ str "1: 2: ")) ∧
  isatty (demo_console two_lines) STDOUT_FILENO = true ∧
  (∃ st', buffered_main plain_resolve words 4 0 (demo_console two_lines) = Some (0, st') ∧
          written st' 0
          = str "0: /home" ++ [newline] ++ str "1: nosuch: command not found" ++ [newline]
            ++ str "2: ") ∧
  (∃ c, main plain_resolve words 4 0 (demo_console two_lines) = Some (0, c) ∧
        processed c = 2%nat ∧
        written (machine c) 0
        = str "0: /home" ++ [newline] ++ str "1: nosuch: command not found" ++ [newline]
          ++ str "2: ") ∧
  (∃ st', buffered_main plain_resolve words 4 0
            (demo_machine false (str "pwd" ++ [newline])) = Some (0, st') ∧
          written st' 1 = str "/home" ++ [newline]).
Proof.
  split; [by vm_compute |]. split; [by vm_compute |]. split; [by vm_compute |].
  split; [eexists; split; [vm_compute; reflexivity | by vm_compute] |].
  split; [by vm_compute |].
  split; [| split]; eexists; (split; [vm_compute; reflexivity | by vm_compute]).
Qed.

(** C2, the claim as stated fails: after [echo abc | tr a-z A-Z] the
    input scratch file still holds the twelve bytes of the final copy
    (only the output scratch file is empty); and a line with ["|"] that
    starts with a built-in, [pwd | cat], is not run as a pipeline at all
    and leaves stale scratch bytes where they were. *)
Lemma pipeline_input_buffer_not_empty :
  (∃ st', run_line plain_resolve 4 demo_pipeline (demo_machine true [])
            = Some (Returned 0 st') ∧
          os_files st' !! plain_resolve "/home" INPUT_FILE
            = Some (replicate 8 nul ++ str "ABC" ++ [newline]) ∧
          os_files st' !! plain_resolve "/home" INPUT_FILE ≠ Some [] ∧
          os_files st' !! plain_resolve "/home" OUTPUT_FILE = Some []) ∧
  (∃ st', run_line plain_resolve 4 ["pwd"; "|"; "cat"] demo_stale
            = Some (Returned 1 st') ∧
          os_files st' !! plain_resolve "/home" OUTPUT_FILE = Some (str "stale")).
Proof.
  split; eexists; (split; [vm_compute; reflexivity |]).
  - split; [by vm_compute |]. split; [by vm_compute | by vm_compute].
  - by vm_compute.
Qed.



(** ** Instances *)

Lemma path_search_first_success_witness :
  child_body plain_resolve (demo_machine true []) ["tr"; "a-z"; "A-Z"] 0 3
  = Replaced "/usr/bin/tr" tr ["tr"; "a-z"; "A-Z"].
Proof.
  apply (path_search_first_success plain_resolve (demo_machine true [])
           ["tr"; "a-z"; "A-Z"] 0 3 "tr" "/bin:/usr/bin" ["/bin"] "/usr/bin" [] tr).
  - by vm_compute.
  - reflexivity.
  - reflexivity.
  - reflexivity.
  - reflexivity.
  - intros p Hp. apply list_elem_of_singleton in Hp as ->.
    split; [apply Nat.ltb_lt; by vm_compute | reflexivity].
  - apply Nat.ltb_lt. by vm_compute.
  - reflexivity.
Defined.

Lemma command_not_found_witness :
  ∃ c', loop_body plain_resolve words 0 true
          (main_start (demo_machine true (str "nosuch x" ++ [newline])))
          = Some (Again c') ∧
        written (machine c') 1 = prompt 0 ++ not_found_line "nosuch" ++ prompt 1.
Proof.
  set (c := main_start (demo_machine true (str "nosuch x" ++ [newline]))).
  destruct (fgets (machine c) BUF_SIZE) as [[line st]|] eqn:Hg;
    [| by vm_compute in Hg].
  pose proof Hg as Hg'. vm_compute in Hg'. injection Hg' as Hline Hst.
  assert (Hsearch : ∀ p, p ∈ strtok_all "/bin:/usr/bin" →
            fits p "nosuch" ∧ execv plain_resolve st (p +:+ "/" +:+ "nosuch") = None).
  { intros p Hp. change (strtok_all "/bin:/usr/bin") with ["/bin"; "/usr/bin"] in Hp.
    apply elem_of_cons in Hp as [-> | Hp];
      [| apply list_elem_of_singleton in Hp as ->];
      (split; [apply Nat.ltb_lt; by vm_compute | by rewrite <- Hst]). }
  destruct (command_not_found plain_resolve words st (words line) 0
              (tokens_get_length (words line)) 0 1 "nosuch" "/bin:/usr/bin")
    as (_ & _ & _ & Hloop).
  - rewrite <- Hline. by vm_compute.
  - by rewrite <- Hline.
  - by rewrite <- Hst.
  - by rewrite <- Hst.
  - exact Hsearch.
  - destruct (Hloop 0%nat true c line Hg eq_refl eq_refl eq_refl)
      as (c' & Hbody & _ & Hm).
    + by vm_compute.
    + by rewrite <- Hline.
    + by rewrite <- Hline.
    + by rewrite <- Hline.
    + exists c'. split; [exact Hbody |]. rewrite Hm, <- Hst. by vm_compute.
Defined.

Lemma cd_changes_directory_silently_witness :
  ∃ st', run_line plain_resolve 0 ["cd"; "/home"] (set_cwd "/" (demo_machine true []))
           = Some (Returned 1 st') ∧
         os_cwd st' = "/home" ∧
         os_chans st' = os_chans (demo_machine true []).
Proof.
  destruct (cd_changes_directory_silently plain_resolve 0 ["cd"; "/home"]
              (set_cwd "/" (demo_machine true [])) eq_refl)
    as (st' & Hrun & _ & Hcwd & _ & _ & Hchans & _).
  exists st'. split; [exact Hrun |].
  split; [etrans; [exact Hcwd | by vm_compute] | exact Hchans].
Defined.

Lemma exit_terminates_witness :
  ∃ c', main_loop plain_resolve words 1 0 true
          (main_start (demo_machine true (str "exit" ++ [newline] ++ str "pwd" ++ [newline])))
          = Some (0, c') ∧
        prompts c' = [0] ∧
        avail (machine c') 0 = str "pwd" ++ [newline].
Proof.
  set (c := main_start (demo_machine true (str "exit" ++ [newline] ++ str "pwd" ++ [newline]))).
  destruct (fgets (machine c) BUF_SIZE) as [[line st]|] eqn:Hg;
    [| by vm_compute in Hg].
  assert (Hline : line = str "exit" ++ [newline] ∧
                  avail st 0 = str "pwd" ++ [newline]).
  { vm_compute in Hg. injection Hg as <- <-. by vm_compute. }
  destruct Hline as [-> Hrest].
  destruct (exit_terminates plain_resolve words 0 0 true c _ st Hg eq_refl)
    as (_ & _ & Hmain).
  eexists. split; [exact Hmain |]. by split.
Defined.

Lemma demo_dirs_only_home tty input p :
  p ≠ "/home" → p ∉ os_dirs (demo_machine tty input).
Proof. intros Hne. simpl. by apply not_elem_of_singleton. Qed.


Lemma pipeline_leaves_output_buffer_empty_witness :
  ∃ st' fuel0,
    (∀ fuel, (fuel0 ≤ fuel)%nat →
             run_line plain_resolve fuel demo_pipeline (demo_machine true [])
             = Some (Returned 0 st')) ∧
    os_files st' !! "/home/./.output" = Some [].
Proof.
  destruct (pipeline_leaves_output_buffer_empty plain_resolve demo_pipeline
              (demo_machine true []))
    as (st' & fuel0 & Hrun & Hout & _).
  - by vm_compute.
  - by vm_compute.
  - by vm_compute.
  - by apply demo_dirs_only_home.
  - by apply demo_dirs_only_home.
  - exists 0%nat, (OFD (Chan 0) true true). by vm_compute.
  - by exists st', fuel0.
Defined.

Lemma prompt_numbering_witness :
  ∃ c, rounds plain_resolve words 2 0 true
         (main_start (demo_machine true (str "pwd" ++ [newline] ++ str "nosuch" ++ [newline])))
         = Some c ∧
       prompts c = [0; 1; 2].
Proof.
  set (st := demo_machine true (str "pwd" ++ [newline] ++ str "nosuch" ++ [newline])).
  destruct (rounds plain_resolve words 2 0 true (main_start st)) as [c|] eqn:Hr;
    [| by vm_compute in Hr].
  exists c. split; [done |].
  destruct (prompt_numbering plain_resolve words 2 0 st c Hr) as (_ & H & _);
    [by vm_compute |].
  change (shell_is_interactive st) with true in H.
  by destruct H.
Defined.

(** ** Further properties of the interpreter *)

(** *** Writes compose *)

Lemma store_at_length_prefix (c : bytes) off :
  length (take off c ++ replicate (off - length c)%nat nul) = off.
Proof. rewrite length_app, length_take, length_replicate. lia. Qed.

Lemma store_at_app (c : bytes) off (a b : bytes) :
  store_at (store_at c off a) (off + length a)%nat b = store_at c off (a ++ b).
Proof.
  unfold store_at.
  pose proof (store_at_length_prefix c off) as HP.
  set (P := take off c ++ replicate (off - length c)%nat nul) in *.
  set (D := drop (off + length a) c).
  assert (Hc1 : take off c ++ replicate (off - length c)%nat nul ++ a ++ D
                = (P ++ a) ++ D) by (unfold P; by rewrite <- !app_assoc).
  rewrite Hc1.
  assert (HPa : length (P ++ a) = (off + length a)%nat) by (rewrite length_app; lia).
  rewrite take_app_length' by done.
  rewrite (drop_app_ge (P ++ a)) by lia.
  replace (off + length a - length ((P ++ a) ++ D))%nat with 0%nat
    by (rewrite length_app; lia).
  replace (off + length a + length b - length (P ++ a))%nat with (length b) by lia.
  unfold D. rewrite drop_drop. simpl.
  unfold P. rewrite <- !app_assoc. do 4 f_equal.
  rewrite length_app. f_equal. lia.
Qed.

Lemma desc_write_app st d (a b : bytes) :
  desc_write (desc_write st d a) d b = desc_write st d (a ++ b).
Proof.
  destruct a as [|x a]; [done |].
  destruct b as [|y b]; [by rewrite app_nil_r |].
  unfold desc_write. cbn [app]. 
  destruct (os_descs st !! d) as [[[name | i | dn] rd []]|] eqn:Hd; try (by rewrite ?Hd).
  - destruct (os_files st !! name) as [c|] eqn:Hf; [| by rewrite Hd, Hf].
    cbn [os_descs os_files os_pos set_pos set_files]. rewrite Hd.
    rewrite lookup_insert_eq.
    unfold pos_of. cbn [os_pos set_pos set_files]. rewrite lookup_insert_eq.
    cbn [default from_option id].
    rewrite !insert_insert_eq.
    change (x :: a ++ y :: b) with ((x :: a) ++ y :: b).
    rewrite <- store_at_app. rewrite length_app.
    unfold set_pos, set_files. cbn [os_files os_dirs os_exes os_chans os_descs os_pos os_fds os_cwd os_path].
    f_equal. f_equal. lia.
  - destruct (os_chans st !! i) as [ch|] eqn:Hc; [| by rewrite Hd, Hc].
    cbn [os_descs os_chans set_chans]. rewrite Hd. rewrite lookup_insert_eq.
    rewrite insert_insert_eq. unfold set_chans.
    cbn [os_files os_dirs os_exes os_chans os_descs os_pos os_fds os_cwd os_path c_in c_out c_tty].
    by rewrite <- app_assoc.
Qed.

Lemma write_app st fd (a b : bytes) :
  write (write st fd a) fd b = write st fd (a ++ b).
Proof.
  unfold write.
  destruct (fd_desc (os_fds st) fd) as [d|] eqn:Hfd; [| by rewrite Hfd].
  rewrite (proj1 (desc_write_frame st d a)), Hfd. apply desc_write_app.
Qed.

(** *** The dispatch and the built-in commands *)

Section DispatchFacts.
Variable resolve : string → string → string.

Lemma lookup_from_spec (table : list fun_desc) start c :
  (lookup_from table start c = -1 ∧ ∀ e, e ∈ table → cmd e ≠ c) ∨
  (start ≤ lookup_from table start c ∧
   ∃ e, table !! Z.to_nat (lookup_from table start c - start) = Some e ∧ cmd e = c ∧
        ∀ j e', (j < Z.to_nat (lookup_from table start c - start))%nat →
                table !! j = Some e' → cmd e' ≠ c).
Proof.
  revert start. induction table as [|e0 rest IH]; intros start.
  - left. split; [done |]. intros e He. by apply elem_of_nil in He.
  - cbn [lookup_from]. destruct (String.eqb_spec (cmd e0) c) as [Heq | Hne].
    + right. split; [lia |]. exists e0. rewrite Z.sub_diag. simpl.
      split; [done |]. split; [done |]. intros j e' Hj. lia.
    + destruct (IH (start + 1)) as [[Hr Hall] | (Hle & e & He & Hc & Hfirst)].
      * left. split; [done |]. intros e He.
        apply elem_of_cons in He as [-> | He]; [done | by apply Hall].
      * right. split; [lia |]. exists e.
        replace (Z.to_nat (lookup_from rest (start + 1) c - start))
          with (S (Z.to_nat (lookup_from rest (start + 1) c - (start + 1)))) by lia.
        split; [done |]. split; [done |].
        intros [|j] e' Hj He'; simpl in He'; [congruence |].
        apply (Hfirst j e'); [lia | done].
Qed.

Lemma cmd_table_names : cmd <$> cmd_table resolve = builtin_names.
Proof. reflexivity. Qed.

(** X1: [lookup] is a linear search for an exact match.  A non-negative
    result is the index of the first entry of [cmd_table] whose name is
    the command; the result is -1 exactly when the command is none of
    [?], [exit], [cd], [pwd], and for the null pointer. *)
Theorem lookup_finds_exact_name c :
  (0 ≤ lookup resolve (Some c) →
   ∃ e, cmd_table resolve !! Z.to_nat (lookup resolve (Some c)) = Some e ∧
        cmd e = c ∧
        ∀ j e', (j < Z.to_nat (lookup resolve (Some c)))%nat →
                cmd_table resolve !! j = Some e' → cmd e' ≠ c) ∧
  (lookup resolve (Some c) < 0 ↔ c ∉ builtin_names) ∧
  (lookup resolve (Some c) < 0 → lookup resolve (Some c) = -1) ∧
  lookup resolve None = -1.
Proof.
  unfold lookup.
  destruct (lookup_from_spec (cmd_table resolve) 0 c)
    as [[Hr Hall] | (Hle & e & He & Hc & Hfirst)].
  - rewrite Hr. split; [lia |]. split; [| done].
    split; [| lia]. intros _ Hin.
    rewrite <- cmd_table_names in Hin.
    apply list_elem_of_fmap in Hin as (e & -> & He). by apply (Hall e).
  - rewrite Z.sub_0_r in *. split; [intros _; eauto |].
    split; [| split; [lia | done]].
    split; [lia |]. intros Hnot. exfalso. apply Hnot.
    rewrite <- cmd_table_names. apply list_elem_of_fmap. exists e.
    split; [done |]. by eapply list_elem_of_lookup_2.
Qed.

Lemma foldl_write_concat {A} (f : A → bytes) fd (l : list A) st :
  foldl (λ s e, write s fd (f e)) st l = write st fd (concat (f <$> l)).
Proof.
  revert st. induction l as [|e l IH]; intros st.
  - simpl. unfold write. by destruct (fd_desc _ _).
  - cbn [foldl]. rewrite IH, write_app. by rewrite fmap_cons.
Qed.

(** X2: a line whose first token is [?] prints one line [name - doc] per
    entry of the table, in table order and as one block, on the
    interpreter's standard output, whatever else the line holds; it
    returns 1 and changes nothing else. *)
Theorem help_prints_table fuel tokens st :
  tokens_get_token tokens 0 = Some "?" →
  run_line resolve fuel tokens st = Some (Returned 1 (printf st help_text)) ∧
  length (help_line <$> cmd_docs) = length (cmd_table resolve) ∧
  (help_line <$> cmd_docs)
    = (λ e, str (cmd e +:+ " - " +:+ doc e) ++ [newline]) <$> cmd_table resolve.
Proof.
  intros H0. split; [| done].
  unfold run_line. rewrite H0. simpl.
  unfold cmd_help, help_text, printf.
  by rewrite (foldl_write_concat help_line).
Qed.

(** X3: [cd] followed by [pwd] prints the directory [cd] moved to, the
    canonical name of its argument, when that is a directory; when it is
    not, or the argument is missing, [pwd] prints the directory the
    interpreter was in before. *)
Theorem cd_then_pwd fuel tokens1 tokens2 st :
  tokens_get_token tokens1 0 = Some "cd" →
  tokens_get_token tokens2 0 = Some "pwd" →
  let shown :=
    match tokens_get_token tokens1 1 with
    | Some dir =>
        if decide (resolve (os_cwd st) dir ∈ os_dirs st)
        then resolve (os_cwd st) dir else os_cwd st
    | None => os_cwd st
    end in
  ∃ st1,
    run_line resolve fuel tokens1 st = Some (Returned 1 st1) ∧
    os_cwd st1 = shown ∧
    run_line resolve fuel tokens2 st1
      = Some (Returned 1 (printf st1 (str shown ++ [newline]))).
Proof.
  intros H1 H2. simpl.
  unfold run_line. rewrite H1, H2. simpl.
  unfold cmd_cd, cmd_pwd, chdir.
  destruct (tokens_get_token tokens1 1) as [dir|]; simpl.
  - destruct (decide (resolve (os_cwd st) dir ∈ os_dirs st)); simpl; eauto.
  - eauto.
Qed.

End DispatchFacts.

(** *** Argument vectors and the launcher *)

Lemma tokens_get_token_lookup (tokens : list string) (n : Z) :
  0 ≤ n → tokens_get_token tokens n = tokens !! Z.to_nat n.
Proof.
  intros H. unfold tokens_get_token, tokens_get_length.
  destruct (Z.leb_spec 0 n); [| lia].
  destruct (Z.ltb_spec n (Z.of_nat (length tokens))); [done |].
  simpl. symmetry. apply lookup_ge_None. lia.
Qed.

Lemma until_null_lookups (l : list string) n : ∀ o,
  until_null ((λ i, l !! i) <$> seq o n) = take n (drop o l).
Proof.
  induction n as [|n IH]; intros o; [by rewrite take_0 |].
  cbn [seq fmap list_fmap]. change (list_fmap _ _ ?f ?x) with (f <$> x).
  destruct (l !! o) as [x|] eqn:Hx.
  - cbn [until_null]. rewrite IH.
    rewrite (drop_S l x o Hx). done.
  - cbn [until_null]. rewrite drop_ge; [done |]. by apply lookup_ge_None.
Qed.

(** X4: the argument vector handed to [execv] is the run of tokens
    [offset, offset+argc), cut short at the end of the line when the range
    runs past it (a missing token is the null pointer that ends [argv]). *)
Theorem argv_is_token_range (tokens : list string) (offset argc : Z) :
  0 ≤ offset → 0 ≤ argc → offset + argc < SIZE_MAX1 →
  until_null (build_argv tokens offset argc)
  = take (Z.to_nat argc) (drop (Z.to_nat offset) tokens).
Proof.
  intros Ho Ha Hmax. rewrite <- until_null_lookups. f_equal.
  unfold build_argv. apply list_eq. intros i. rewrite !list_lookup_fmap.
  destruct (decide (i < Z.to_nat argc)%nat) as [Hi | Hi].
  - rewrite !lookup_seq_lt by done. simpl.
    rewrite size_add_small by lia.
    rewrite tokens_get_token_lookup by lia. do 2 f_equal. lia.
  - by rewrite !lookup_seq_ge by lia.
Qed.

Section LauncherFacts.
Variable resolve : string → string → string.

(** The three ways the [PATH] loop can end. *)
Lemma search_path_cases st name argv prefixes :
  match search_path resolve st name argv prefixes with
  | Replaced p image argv' =>
      ∃ pre d post,
        prefixes = pre ++ d :: post ∧
        (∀ q, q ∈ pre → fits q name ∧ execv resolve st (q +:+ "/" +:+ name) = None) ∧
        fits d name ∧ p = d +:+ "/" +:+ name ∧
        execv resolve st p = Some image ∧ argv' = argv
  | Exited status printed =>
      status = 0 ∧ printed = not_found_line name ∧
      ∀ q, q ∈ prefixes → fits q name ∧ execv resolve st (q +:+ "/" +:+ name) = None
  | Undefined =>
      ∃ pre d post,
        prefixes = pre ++ d :: post ∧
        (∀ q, q ∈ pre → fits q name ∧ execv resolve st (q +:+ "/" +:+ name) = None) ∧
        ¬ fits d name
  end.
Proof.
  induction prefixes as [|p rest IH].
  - simpl. split; [done |]. split; [done |]. intros q Hq. by apply elem_of_nil in Hq.
  - rewrite search_path_cons.
    destruct (Nat.leb_spec ABSOLUTE_PATH_CAP (String.length (p +:+ "/" +:+ name)))
      as [Hbig | Hfit].
    + exists [], p, rest. split; [done |]. split.
      * intros q Hq. by apply elem_of_nil in Hq.
      * unfold fits. lia.
    + destruct (execv resolve st (p +:+ "/" +:+ name)) as [image|] eqn:Hex.
      * exists [], p, rest. split; [done |]. split.
        -- intros q Hq. by apply elem_of_nil in Hq.
        -- by repeat split.
      * assert (Hhead : ∀ pre q, q ∈ p :: pre →
                  (∀ q, q ∈ pre → fits q name ∧
                        execv resolve st (q +:+ "/" +:+ name) = None) →
                  fits q name ∧ execv resolve st (q +:+ "/" +:+ name) = None).
        { intros pre q Hq Hpre. apply elem_of_cons in Hq as [-> | Hq]; [done | eauto]. }
        destruct (search_path resolve st name argv rest) as [p' image argv' | s pr |].
        -- destruct IH as (pre & d & post & -> & Hpre & Hrest).
           exists (p :: pre), d, post. split; [done |]. split; [| done].
           intros q Hq. by apply (Hhead pre).
        -- destruct IH as (-> & -> & Hall). split; [done |]. split; [done |].
           intros q Hq. by apply (Hhead rest).
        -- destruct IH as (pre & d & post & -> & Hpre & Hbad).
           exists (p :: pre), d, post. split; [done |]. split; [| done].
           intros q Hq. by apply (Hhead pre).
Qed.

Lemma child_body_Replaced_argv st tokens offset argc p image argv :
  child_body resolve st tokens offset argc = Replaced p image argv →
  argv = until_null (build_argv tokens offset argc).
Proof.
  unfold child_body.
  destruct (size_add argc 1 =? 0); [done |].
  destruct (tokens_get_token tokens offset) as [name|]; [| done].
  destruct (execv resolve st name); [congruence |].
  destruct (os_path st) as [pathstr|]; [| done].
  intros Hs.
  pose proof (search_path_cases st name
                (until_null (build_argv tokens offset argc)) (strtok_all pathstr)) as Hc.
  rewrite Hs in Hc. by destruct Hc as (? & ? & ? & _ & _ & _ & _ & _ & ->).
Qed.

(** The child looks at nothing of the machine but the executables, the
    working directory and [PATH]. *)
Lemma child_body_same_world st st' tokens offset argc :
  os_exes st' = os_exes st → os_cwd st' = os_cwd st → os_path st' = os_path st →
  child_body resolve st' tokens offset argc = child_body resolve st tokens offset argc.
Proof.
  intros He Hc Hp. unfold child_body. rewrite Hp.
  assert (Hx : ∀ q, execv resolve st' q = execv resolve st q)
    by (intros q; unfold execv; by rewrite He, Hc).
  assert (Hs : ∀ name argv l, search_path resolve st' name argv l
                              = search_path resolve st name argv l).
  { intros name argv l. induction l as [|q l IH]; [done |].
    by rewrite !search_path_cons, Hx, IH. }
  destruct (size_add argc 1 =? 0); [done |].
  destruct (tokens_get_token tokens offset) as [name|]; [| done].
  rewrite Hx.
  destruct (execv resolve st name); [done |].
  destruct (os_path st); [| done]. apply Hs.
Qed.

(** X5: the child prints [command not found] only when nothing executes:
    if it ends by printing, the status is 0, the text is exactly the
    not-found line of the command name, and neither the name as given nor
    any [prefix/name] of [PATH] is executable. *)
Theorem not_found_only_when_nothing_executes st tokens offset argc status printed :
  child_body resolve st tokens offset argc = Exited status printed →
  ∃ name pathstr,
    tokens_get_token tokens offset = Some name ∧
    os_path st = Some pathstr ∧
    status = 0 ∧ printed = not_found_line name ∧
    execv resolve st name = None ∧
    ∀ q, q ∈ strtok_all pathstr → execv resolve st (q +:+ "/" +:+ name) = None.
Proof.
  unfold child_body.
  destruct (size_add argc 1 =? 0); [done |].
  destruct (tokens_get_token tokens offset) as [name|]; [| done].
  destruct (execv resolve st name) as [image|] eqn:Hdirect; [done |].
  destruct (os_path st) as [pathstr|]; [| done].
  intros Hs.
  pose proof (search_path_cases st name
                (until_null (build_argv tokens offset argc)) (strtok_all pathstr)) as Hc.
  rewrite Hs in Hc. destruct Hc as (-> & -> & Hall).
  exists name, pathstr. repeat split; try done. intros q Hq. by apply Hall.
Qed.

(** X6: whatever program the child becomes is the first match: its
    arguments are the tokens of the range, and its path is either the
    command name itself, which then executes as given, or [d/name] for the
    first prefix [d] of [PATH] under which the name executes, the name as
    given and all earlier prefixes having failed. *)
Theorem launched_image_is_first_match st tokens offset argc p image argv :
  child_body resolve st tokens offset argc = Replaced p image argv →
  ∃ name,
    tokens_get_token tokens offset = Some name ∧
    argv = until_null (build_argv tokens offset argc) ∧
    execv resolve st p = Some image ∧
    (p = name ∨
     execv resolve st name = None ∧
     ∃ pathstr pre d post,
       os_path st = Some pathstr ∧ strtok_all pathstr = pre ++ d :: post ∧
       p = d +:+ "/" +:+ name ∧
       ∀ q, q ∈ pre → execv resolve st (q +:+ "/" +:+ name) = None).
Proof.
  unfold child_body.
  destruct (size_add argc 1 =? 0); [done |].
  destruct (tokens_get_token tokens offset) as [name|]; [| done].
  destruct (execv resolve st name) as [image0|] eqn:Hdirect.
  - intros H. injection H as <- <- <-. exists name. by repeat split; [| left].
  - destruct (os_path st) as [pathstr|]; [| done].
    intros Hs.
    pose proof (search_path_cases st name
                  (until_null (build_argv tokens offset argc)) (strtok_all pathstr)) as Hc.
    rewrite Hs in Hc. destruct Hc as (pre & d & post & Hsplit & Hpre & _ & -> & Hex & ->).
    exists name. split; [done |]. split; [done |]. split; [done |].
    right. split; [done |]. exists pathstr, pre, d, post.
    repeat split; try done. intros q Hq. by apply Hpre.
Qed.


End LauncherFacts.

(** *** Reading lines, and the loop *)

Lemma line_len_zero n (l : bytes) : line_len n l = 0%nat ↔ n = 0%nat ∨ l = [].
Proof.
  destruct n, l as [|b l]; simpl; try (split; [auto | done]).
  destruct (Byte.eqb b newline); split; try done; intros [? | ?]; done.
Qed.

(** When [fgets] returns the null pointer. *)
Lemma fgets_null st size :
  fgets st size = None ↔
  fd_desc (os_fds st) STDIN_FILENO = None ∨
  (∃ d, fd_desc (os_fds st) STDIN_FILENO = Some d ∧ avail st d = []) ∨
  size ≤ 1.
Proof.
  unfold fgets.
  destruct (fd_desc (os_fds st) STDIN_FILENO) as [d|] eqn:Hd; simpl.
  - destruct (line_len (Z.to_nat (size - 1)) (avail st d)) eqn:Hk.
    + apply line_len_zero in Hk as [Hk | Hk].
      * split; [intros _; right; right; lia | done].
      * split; [intros _; right; left; eauto | done].
    + split; [done |].
      intros [? | [(d' & Hd' & Hav) | Hsz]]; [done | |].
      * injection Hd' as <-. rewrite Hav in Hk.
        by destruct (Z.to_nat (size - 1)).
      * replace (Z.to_nat (size - 1)) with 0%nat in Hk by lia. done.
  - split; [by left | done].
Qed.

Lemma desc_write_avail_chan st dd data ds i rd wr :
  os_descs st !! ds = Some (OFD (Chan i) rd wr) →
  avail (desc_write st dd data) ds = avail st ds.
Proof.
  intros Hd. apply desc_write_avail. intros name rd' wr' Hd'. congruence.
Qed.

Lemma write_avail_chan st fd data ds i rd wr :
  os_descs st !! ds = Some (OFD (Chan i) rd wr) →
  avail (write st fd data) ds = avail st ds.
Proof.
  intros Hd. unfold write. destruct (fd_desc _ _); [| done].
  by eapply desc_write_avail_chan.
Qed.

Section LoopFacts.
Variable resolve : string → string → string.
Variable tokenize : bytes → list string.

(** X10: on exhausted input the interpreter ends at once with status 0.
    With descriptor 0 closed, or open on a stream that holds nothing (a
    terminal at end of file, an empty pipe), [main] returns 0 from its
    first read, having printed the prompt [0: ] and nothing else on a
    terminal, and nothing at all otherwise. *)
Theorem end_of_input_exits k fuel st :
  (os_fds st !! STDIN_FILENO = None ∨
   ∃ d i rd wr ch,
     os_fds st !! STDIN_FILENO = Some d ∧
     os_descs st !! d = Some (OFD (Chan i) rd wr) ∧
     os_chans st !! i = Some ch ∧ c_in ch = []) →
  main resolve tokenize (S k) fuel st = Some (0, main_start st) ∧
  prompts (main_start st) = (if shell_is_interactive st then [0] else []) ∧
  machine (main_start st)
    = (if shell_is_interactive st then printf st (prompt 0) else st).
Proof.
  intros Hin.
  assert (Hstart : prompts (main_start st) = (if shell_is_interactive st then [0] else []) ∧
                   machine (main_start st)
                   = (if shell_is_interactive st then printf st (prompt 0) else st)).
  { unfold main_start. by destruct (shell_is_interactive st). }
  split; [| done].
  assert (Hgets : fgets (machine (main_start st)) BUF_SIZE = None).
  { apply fgets_null.
    assert (Hfds : os_fds (machine (main_start st)) = os_fds st).
    { rewrite (proj2 Hstart). destruct (shell_is_interactive st); [| done].
      apply write_stable. }
    rewrite Hfds. rewrite !fd_desc_nonneg by done.
    destruct Hin as [Hclosed | (d & i & rd & wr & ch & Hd & Hdesc & Hch & Hempty)];
      [by left |].
    right. left. exists d. split; [done |].
    assert (Hav : avail st d = []).
    { unfold avail. rewrite Hdesc, Hch. by destruct rd. }
    rewrite (proj2 Hstart). destruct (shell_is_interactive st); [| done].
    unfold printf. by rewrite (write_avail_chan _ _ _ _ i rd wr). }
  unfold main. simpl. unfold loop_body. by rewrite Hgets.
Qed.

(** X11: a line with no operator whose command can be executed runs it
    with the whole line as its arguments on the interpreter's own standard
    input and output.  With these two open on streams, the stream of
    descriptor 0 loses the bytes the program reads and the stream of
    descriptor 1 gains what it writes (they may be one terminal); the
    interpreter's descriptor table is as before. *)
Theorem plain_command_uses_interpreter_streams fuel tokens st
    p image argv din dout i j chi chj rd wr :
  lookup resolve (tokens_get_token tokens 0) < 0 →
  is_contains_word tokens "|" = false →
  is_contains_word tokens ">" = false →
  is_contains_word tokens "<" = false →
  tokens_get_length tokens < BUF_SIZE →
  child_body resolve st tokens 0 (tokens_get_length tokens) = Replaced p image argv →
  os_fds st !! STDIN_FILENO = Some din →
  os_fds st !! STDOUT_FILENO = Some dout →
  os_descs st !! din = Some (OFD (Chan i) true rd) →
  os_descs st !! dout = Some (OFD (Chan j) wr true) →
  os_chans st !! i = Some chi →
  os_chans st !! j = Some chj →
  ∃ st',
    run_line resolve fuel tokens st = Some (Returned 0 st') ∧
    argv = tokens ∧
    (c_in <$> os_chans st' !! i) = Some (drop (image tokens (c_in chi)).1 (c_in chi)) ∧
    (c_out <$> os_chans st' !! j) = Some (c_out chj ++ (image tokens (c_in chi)).2) ∧
    os_fds st' = os_fds st.
Proof.
  intros Hlook Hp Hgt Hlt Hlen Hbody Hfin Hfout Hdin Hdout Hci Hcj.
  assert (Hargv : argv = tokens).
  { rewrite (child_body_Replaced_argv resolve _ _ _ _ _ _ _ Hbody).
    rewrite build_argv_range;
      [| lia | unfold tokens_get_length; lia | lia
       | unfold BUF_SIZE, SIZE_MAX1 in *; lia].
    rewrite drop_0. unfold tokens_get_length.
    rewrite Nat2Z.id. apply firstn_all. }
  subst argv.
  exists (execute_program resolve st tokens 0 (tokens_get_length tokens)
            STDIN_FILENO STDOUT_FILENO).
  split.
  { unfold run_line.
    destruct (Z.leb_spec 0 (lookup resolve (tokens_get_token tokens 0))); [lia |].
    by rewrite Hp, Hgt, Hlt. }
  split; [done |].
  unfold execute_program. rewrite child_fds_plain, Hbody.
  rewrite !fd_desc_nonneg, Hfin, Hfout by done. simpl.
  assert (Hav : avail st din = c_in chi) by (unfold avail; by rewrite Hdin, Hci).
  rewrite Hav.
  destruct (image tokens (c_in chi)) as [n out] eqn:Himg. simpl.
  set (s1 := (desc_read st din n).2).
  assert (Hs1 : os_chans s1 = <[i := CHAN (drop n (c_in chi)) (c_out chi) (c_tty chi)]>
                                (os_chans st) ∧
                os_descs s1 = os_descs st ∧ os_files s1 = os_files st ∧
                os_fds s1 = os_fds st).
  { unfold s1, desc_read. rewrite Hdin, Hci. by simpl. }
  destruct Hs1 as (Hc1 & Hd1 & Hf1 & Hfd1).
  destruct out as [|b out].
  - simpl. rewrite Hc1, Hfd1, app_nil_r. split.
    + by rewrite lookup_insert_eq.
    + split; [| done].
      destruct (decide (i = j)) as [-> | Hne].
      * rewrite lookup_insert_eq. simpl. congruence.
      * rewrite lookup_insert_ne, Hcj by done. done.
  - unfold desc_write. rewrite Hd1, Hdout, Hc1. 
    destruct (decide (i = j)) as [-> | Hne].
    + rewrite lookup_insert_eq. simpl. rewrite lookup_insert_eq. simpl.
      rewrite Hfd1. assert (chi = chj) as -> by congruence. done.
    + rewrite lookup_insert_ne, Hcj by done. simpl.
      rewrite lookup_insert_ne by done. rewrite lookup_insert_eq, lookup_insert_eq.
      simpl. by rewrite Hfd1.
Qed.

(** X12: after a [<] line typed at a terminal, whose [open] succeeds on
    a file, the interpreter itself reads on from the file.  Its
    descriptor 0 is left on the description the command read through, so
    what descriptor 0 delivers next is the file from where the command
    stopped; a command that reads the file to its end leaves nothing, and
    the next round of the loop ends the interpreter with status 0.  (The
    line came from a terminal, so that [stdin] holds nothing read ahead
    when the descriptor is replaced.) *)
Theorem input_redirection_feeds_interpreter fuel tokens st target content
    p image argv :
  isatty st STDIN_FILENO = true →
  lookup resolve (tokens_get_token tokens 0) < 0 →
  is_contains_word tokens "|" = false →
  is_contains_word tokens ">" = false →
  is_contains_word tokens "<" = true →
  2 ≤ tokens_get_length tokens < BUF_SIZE →
  last tokens = Some target →
  0 ≤ (open resolve st (Some target) false O_RDONLY).1 →
  resolve (os_cwd st) target ∉ os_dirs st →
  os_files st !! resolve (os_cwd st) target = Some content →
  is_Some (os_fds st !! STDIN_FILENO) →
  is_Some (os_fds st !! STDOUT_FILENO) →
  off_file st (os_fds st !! STDOUT_FILENO) (resolve (os_cwd st) target) →
  (∀ d, os_fds st !! STDOUT_FILENO = Some d → is_Some (os_descs st !! d)) →
  child_body resolve st tokens 0 (tokens_get_length tokens - 2) = Replaced p image argv →
  ∃ st' d,
    run_line resolve fuel tokens st = Some (Returned 0 st') ∧
    fd_desc (os_fds st') STDIN_FILENO = Some d ∧
    os_descs st' !! d = Some (OFD (File (resolve (os_cwd st) target)) true false) ∧
    avail st' d = drop (image argv content).1 content ∧
    ∀ interactive c,
      machine c = st' →
      (length content ≤ (image argv content).1)%nat →
      loop_body resolve tokenize fuel interactive c = Some (Halt 0 c).
Proof.
  intros _ Hlook Hpipe Hgt Hlt Hlen Hlast _ Hdir Hfile [d0 Hstdin] [d1 Hstdout] Hoff Hd1 Hbody.
  destruct (open_succeeds resolve st target false O_RDONLY Hdir
              (or_intror (ex_intro _ content Hfile)))
    as (st1 & Hopen & Hfds & Hdescs & Hpos & Hfiles & Hchans & Hdirs & Hcwd & Hpath & Hexes).
  rewrite Hfile in Hfiles.
  destruct (alloc_fd_fresh (os_fds st)) as [Hfree Hnn].
  set (name := resolve (os_cwd st) target) in *.
  set (filedes := alloc_fd (os_fds st)) in *.
  set (d := fresh (dom (os_descs st))) in *.
  assert (Hdfresh : os_descs st !! d = None) by apply not_elem_of_dom, is_fresh.
  assert (Hne0 : filedes ≠ STDIN_FILENO) by (intros E; rewrite E in Hfree; congruence).
  assert (Hne1 : filedes ≠ STDOUT_FILENO) by (intros E; rewrite E in Hfree; congruence).
  assert (Hmax : tokens_get_length tokens < SIZE_MAX1)
    by (unfold BUF_SIZE, SIZE_MAX1 in *; lia).
  set (st2 := dup2 st1 filedes STDIN_FILENO).
  assert (Hfd : fd_desc (os_fds st1) filedes = Some d).
  { rewrite Hfds, fd_desc_nonneg by done. by rewrite lookup_insert_eq. }
  assert (Ht2 : os_fds st2 = <[STDIN_FILENO := d]> (<[filedes := d]> (os_fds st))).
  { unfold st2, dup2. cbn [os_fds set_fds]. unfold dup2_table. by rewrite Hfd, Hfds. }
  assert (Hchild : child_fds st2 filedes STDOUT_FILENO = os_fds st2).
  { unfold child_fds. rewrite dup2_table_same. unfold dup2_table.
    rewrite Ht2, fd_desc_nonneg by done.
    rewrite lookup_insert_ne, lookup_insert_eq by done. by rewrite insert_insert_eq. }
  assert (Hd1' : d1 ≠ d).
  { intros ->. destruct (Hd1 d Hstdout) as [o Ho]. congruence. }
  (* the launch *)
  set (st3 := execute_program resolve st2 tokens 0 (tokens_get_length tokens - 2)
                filedes STDOUT_FILENO).
  assert (Hrun : run_line resolve fuel tokens st = Some (Returned 0 (close st3 filedes))).
  { unfold run_line.
    destruct (Z.leb_spec 0 (lookup resolve (tokens_get_token tokens 0))); [lia |].
    rewrite Hpipe, Hgt, Hlt. unfold redirect_in.
    rewrite last_token, Hlast by (eauto using contains_nonempty).
    rewrite Hopen. by rewrite size_sub_small by lia. }
  assert (Hbody2 : child_body resolve st2 tokens 0 (tokens_get_length tokens - 2)
                   = Replaced p image argv).
  { rewrite <- Hbody. by apply child_body_same_world. }
  assert (Hav2 : avail st2 d = content).
  { unfold avail, st2, dup2. cbn [os_descs os_files set_fds].
    rewrite Hdescs, lookup_insert_eq. simpl. rewrite Hfiles, Hfile.
    unfold pos_of. cbn [os_pos set_fds]. by rewrite Hpos, lookup_insert_eq. }
  assert (Hst3 : st3 = desc_write (desc_read st2 d (image argv content).1).2 d1
                         (image argv content).2).
  { unfold st3, execute_program. rewrite Hchild, Hbody2, Ht2.
    rewrite !fd_desc_nonneg by done.
    rewrite lookup_insert_eq.
    rewrite !lookup_insert_ne, Hstdout by done. simpl. rewrite Hav2.
    by destruct (image argv content). }
  exists (close st3 filedes), d.
  split; [done |].
  assert (Hdesc3 : os_descs st3 = os_descs st1).
  { unfold st3. by rewrite (proj1 (proj2 (execute_program_stable _ _ _ _ _ _ _))). }
  assert (Hfds3 : os_fds (close st3 filedes) = <[STDIN_FILENO := d]> (os_fds st)).
  { unfold close. cbn [os_fds set_fds]. unfold st3. rewrite execute_program_fds, Ht2.
    rewrite delete_insert_ne by done. by rewrite delete_insert_id. }
  split; [rewrite Hfds3, fd_desc_nonneg by done; by rewrite lookup_insert_eq |].
  split; [cbn [close os_descs set_fds]; by rewrite Hdesc3, Hdescs, lookup_insert_eq |].
  assert (Hav3 : avail (close st3 filedes) d = drop (image argv content).1 content).
  { change (avail (close st3 filedes) d) with (avail st3 d).
    rewrite Hst3, desc_write_avail.
    - rewrite (proj2 (desc_read_spec st2 d _)). by rewrite Hav2.
    - intros nm rd wr Hnm d' o [= <-] Ho.
      rewrite (proj1 (proj2 (desc_read_frame st2 d _))) in Hnm, Ho.
      unfold st2, dup2 in Hnm, Ho. cbn [os_descs set_fds] in Hnm, Ho.
      rewrite Hdescs in Hnm, Ho. rewrite lookup_insert_eq in Hnm.
      rewrite lookup_insert_ne in Ho by done.
      injection Hnm as <- _ _. by apply (Hoff d1 o). }
  split; [done |].
  intros interactive c Hm Hall. unfold loop_body. rewrite Hm.
  assert (Hg : fgets (close st3 filedes) BUF_SIZE = None).
  { apply fgets_null. right. left. exists d.
    split; [rewrite Hfds3, fd_desc_nonneg by done; by rewrite lookup_insert_eq |].
    rewrite Hav3. apply drop_ge. lia. }
  by rewrite Hg.
Qed.

End LoopFacts.

(** *** The copy loop, exactly *)

Lemma desc_read_file st d n name wr :
  os_descs st !! d = Some (OFD (File name) true wr) →
  desc_read st d n
  = (take n (avail st d),
     set_pos (<[d := (pos_of st d + length (take n (avail st d)))%nat]> (os_pos st)) st).
Proof. intros Hd. unfold desc_read. by rewrite Hd. Qed.

(** A write does not see the offset of a description it does not go
    through. *)
Lemma desc_write_set_pos st dd data ds v :
  dd ≠ ds →
  desc_write (set_pos (<[ds := v]> (os_pos st)) st) dd data
  = set_pos (<[ds := v]> (os_pos (desc_write st dd data))) (desc_write st dd data).
Proof.
  intros Hne. unfold desc_write. destruct data as [|b data]; [done |].
  cbn [os_descs set_pos].
  destruct (os_descs st !! dd) as [[[q | j | dq] rd []]|]; try done.
  - cbn [os_files set_pos]. destruct (os_files st !! q) as [c|]; [| done].
    unfold pos_of, set_pos, set_files.
    cbn [os_files os_dirs os_exes os_chans os_descs os_pos os_fds os_cwd os_path].
    rewrite lookup_insert_ne by done.
    f_equal. by apply insert_insert_ne.
  - cbn [os_chans set_pos]. by destruct (os_chans st !! j).
Qed.

Lemma write_set_pos st fd data ds v :
  fd_desc (os_fds st) fd ≠ Some ds →
  write (set_pos (<[ds := v]> (os_pos st)) st) fd data
  = set_pos (<[ds := v]> (os_pos (write st fd data))) (write st fd data).
Proof.
  intros Hne. unfold write. cbn [os_fds set_pos].
  destruct (fd_desc (os_fds st) fd) as [dd|]; [| done].
  apply desc_write_set_pos. congruence.
Qed.

Lemma set_pos_twice st ds v w0 :
  set_pos (<[ds := w0]> (os_pos (set_pos (<[ds := v]> (os_pos st)) st)))
          (set_pos (<[ds := v]> (os_pos st)) st)
  = set_pos (<[ds := w0]> (os_pos st)) st.
Proof.
  unfold set_pos.
  cbn [os_files os_dirs os_exes os_chans os_descs os_pos os_fds os_cwd os_path].
  by rewrite insert_insert_eq.
Qed.

Lemma write_nil st fd : write st fd [] = st.
Proof. unfold write. by destruct (fd_desc _ _). Qed.

(** The loop [while ((len = read(src, buf, BUF_SIZE)) > 0) write(dst, buf, len)]
    with [src] open for reading on a file that [dst] is not open on: the
    state it ends in is that of one [write] of everything [src] had still
    to deliver, with the offset of [src] moved past it. *)
Lemma copy_loop_file m : ∀ st src dst ds name wr,
  fd_desc (os_fds st) src = Some ds →
  os_descs st !! ds = Some (OFD (File name) true wr) →
  off_file st (fd_desc (os_fds st) dst) name →
  (length (avail st ds) ≤ m)%nat →
  ∀ fuel, (m < fuel)%nat →
    copy_loop fuel st src dst
    = Some (set_pos (<[ds := (pos_of st ds + length (avail st ds))%nat]>
                       (os_pos (write st dst (avail st ds))))
              (write st dst (avail st ds))).
Proof.
  induction m as [|m IH]; intros st src dst ds name wr Hsrc Hd Hoff Hm fuel Hf.
  - destruct fuel as [|fuel]; [lia |]. cbn [copy_loop].
    unfold read. rewrite Hsrc, (desc_read_file _ _ _ _ _ Hd).
    destruct (avail st ds) as [|b l]; [| simpl in Hm; lia].
    rewrite take_nil, write_nil. done.
  - destruct fuel as [|fuel]; [lia |]. cbn [copy_loop].
    unfold read. rewrite Hsrc, (desc_read_file _ _ _ _ _ Hd).
    set (pending := avail st ds) in *.
    set (N := Z.to_nat BUF_SIZE).
    destruct (take N pending) as [|b buf] eqn:Hbuf.
    { assert (pending = []) as ->.
      { destruct pending; [done |]. by vm_compute in Hbuf. }
      by rewrite write_nil. }
    rewrite <- Hbuf.
    assert (Hdd : fd_desc (os_fds st) dst ≠ Some ds).
    { intros E. apply (Hoff ds _ E Hd). done. }
    set (p1 := (pos_of st ds + length (take N pending))%nat).
    rewrite (write_set_pos st dst (take N pending) ds p1 Hdd).
    set (w1 := write st dst (take N pending)).
    set (st2 := set_pos (<[ds := p1]> (os_pos w1)) w1).
    pose proof (write_stable st dst (take N pending)) as Hw1. fold w1 in Hw1.
    assert (Hfds2 : os_fds st2 = os_fds st) by (unfold st2; cbn; apply Hw1).
    assert (Hdescs2 : os_descs st2 = os_descs st) by (unfold st2; cbn; apply Hw1).
    assert (Hav2 : avail st2 ds = drop N pending).
    { assert (E : st2 = write (desc_read st ds N).2 dst (desc_read st ds N).1).
      { rewrite (desc_read_file _ _ _ _ _ Hd). cbn [fst snd]. fold pending p1.
        by rewrite (write_set_pos st dst (take N pending) ds p1 Hdd). }
      rewrite E. unfold write.
      rewrite (proj1 (desc_read_frame st ds N)).
      destruct (fd_desc (os_fds st) dst) as [dd|] eqn:Hdst.
      - rewrite desc_write_avail; [apply desc_read_spec |].
        intros nm rd' wr' Hnm d' o [= <-] Ho.
        rewrite (proj1 (proj2 (desc_read_frame st ds N))) in Hnm, Ho.
        assert (nm = name) as -> by congruence.
        by apply (Hoff dd o).
      - apply desc_read_spec. }
    assert (Hlen : (length pending = length (take N pending) + length (drop N pending))%nat).
    { by rewrite <- length_app, take_drop. }
    rewrite (IH st2 src dst ds name wr); [| by rewrite Hfds2 | by rewrite Hdescs2 | | | lia].
    + rewrite Hav2. f_equal.
      assert (Hw2 : write st2 dst (drop N pending)
                    = set_pos (<[ds := p1]> (os_pos (write st dst pending)))
                        (write st dst pending)).
      { unfold st2.
        rewrite write_set_pos by (by rewrite (proj1 Hw1)).
        unfold w1. rewrite write_app, take_drop. done. }
      rewrite Hw2.
      assert (Hp2 : pos_of st2 ds = p1).
      { unfold st2, pos_of. cbn [os_pos set_pos]. by rewrite lookup_insert_eq. }
      rewrite Hp2, set_pos_twice. do 2 f_equal. unfold p1. lia.
    + intros d' o Hd' Ho. rewrite Hfds2 in Hd'. rewrite Hdescs2 in Ho. by apply (Hoff d' o).
    + rewrite Hav2. rewrite Hbuf in Hlen. simpl in Hlen. lia.
Qed.
(** *** The scratch files, step by step *)





Section Scratch.
Variables (fi fo : Z) (di do : nat) (pin pout : string).









End Scratch.
Section ScratchMore.
Variables (fi fo : Z) (di do : nat) (pin pout : string).



End ScratchMore.

Section Relay.
Variable resolve : string → string → string.
Variables (fi fo : Z) (di do : nat) (pin pout : string).




End Relay.

Section PipelineRelay.
Variable resolve : string → string → string.


End PipelineRelay.
(** *** Stages and their tokens *)





(** *** Pipelines, end to end *)

(** X13: the loop [while ((len = read(src, buf, BUF_SIZE)) > 0)
    write(dst, buf, len)], reading a file that [dst] is not open on, ends
    (after at most one round per pending byte, and one more), and what it
    leaves is what a single [write] of everything pending leaves: the same
    files and streams, with the source read to its end.  The size of
    [buf] does not show. *)
Theorem copy_loop_is_one_write st src dst ds name wr :
  fd_desc (os_fds st) src = Some ds →
  os_descs st !! ds = Some (OFD (File name) true wr) →
  off_file st (fd_desc (os_fds st) dst) name →
  ∃ st',
    (∀ fuel, (length (avail st ds) < fuel)%nat → copy_loop fuel st src dst = Some st') ∧
    os_files st' = os_files (write st dst (avail st ds)) ∧
    os_chans st' = os_chans (write st dst (avail st ds)) ∧
    os_fds st' = os_fds st ∧
    avail st' ds = [] ∧
    pos_of st' ds = (pos_of st ds + length (avail st ds))%nat.
Proof.
  intros Hsrc Hd Hoff.
  pose proof (copy_loop_file (length (avail st ds)) st src dst ds name wr Hsrc Hd Hoff
                (Nat.le_refl _)) as Hcopy.
  eexists. split; [exact Hcopy |].
  split; [done |]. split; [done |].
  split; [cbn [os_fds set_pos]; apply write_stable |].
  assert (Hpos : pos_of (set_pos (<[ds := (pos_of st ds + length (avail st ds))%nat]>
                                    (os_pos (write st dst (avail st ds))))
                           (write st dst (avail st ds))) ds
                 = (pos_of st ds + length (avail st ds))%nat).
  { unfold pos_of at 1. cbn [os_pos set_pos]. by rewrite lookup_insert_eq. }
  split; [| exact Hpos].
  unfold avail at 1. rewrite Hpos. cbn [os_descs os_files set_pos].
  rewrite (proj1 (proj2 (write_stable st dst _))), Hd.
  rewrite write_other_file by done.
  unfold avail. rewrite Hd.
  destruct (os_files st !! name) as [c|]; [| done].
  rewrite length_drop. apply drop_ge. lia.
Qed.

Section PipelineFacts.
Variable resolve : string → string → string.


End PipelineFacts.
(** *** Redirections: where the bytes go, and failed opens *)

Lemma desc_read_written st d n i : written (desc_read st d n).2 i = written st i.
Proof.
  unfold desc_read, written.
  destruct (os_descs st !! d) as [[[name | j | dn] [] wr]|]; try done.
  destruct (os_chans st !! j) as [ch|] eqn:Hj; [| done]. cbn [snd os_chans set_chans].
  destruct (decide (j = i)) as [-> | Hne].
  - by rewrite lookup_insert_eq, Hj.
  - by rewrite lookup_insert_ne.
Qed.

Lemma desc_write_on_file_chans st d data name rd wr :
  os_descs st !! d = Some (OFD (File name) rd wr) →
  os_chans (desc_write st d data) = os_chans st.
Proof.
  intros Hd. unfold desc_write. destruct data; [done |]. rewrite Hd.
  destruct wr; [| done]. by destruct (os_files st !! name).
Qed.

Lemma child_effect_written st din d e name rd wr i :
  os_descs st !! d = Some (OFD (File name) rd wr) →
  written (child_effect st din (Some d) e) i = written st i.
Proof.
  intros Hd. destruct e as [p image argv | status printed |]; cbn [child_effect from_option].
  - destruct (image argv (from_option (avail st) [] din)) as [n out].
    unfold written at 1.
    rewrite (desc_write_on_file_chans _ _ _ name rd wr).
    + destruct din as [di|]; [apply desc_read_written | done].
    + destruct din as [di|]; [| done]. cbn [from_option].
      by rewrite (proj1 (proj2 (desc_read_frame st di n))).
  - unfold written. by rewrite (desc_write_on_file_chans _ _ _ name rd wr).
  - done.
Qed.

Lemma set_fds_same st : set_fds (os_fds st) st = st.
Proof. by destruct st. Qed.

Lemma close_unopened st fd : os_fds st !! fd = None → close st fd = st.
Proof. intros H. unfold close. rewrite delete_id by done. apply set_fds_same. Qed.

Section RedirectionFacts.
Variable resolve : string → string → string.

(** [open] either fails, changing nothing, or binds a descriptor that was
    free. *)
Lemma open_cases st path creat a fd st1 :
  open resolve st path creat a = (fd, st1) →
  (fd = -1 ∧ st1 = st) ∨
  (0 ≤ fd ∧ os_fds st !! fd = None ∧ ∃ d, os_fds st1 = <[fd := d]> (os_fds st)).
Proof.
  unfold open. destruct path as [p|]; [| intros [= <- <-]; by left].
  destruct (alloc_fd_fresh (os_fds st)) as [Hfree Hnn].
  destruct (decide (resolve (os_cwd st) p ∈ os_dirs st)).
  { destruct (can_write a || creat); intros [= <- <-]; [by left |].
    right. split; [done |]. split; [done |]. by eexists. }
  destruct (os_files st !! resolve (os_cwd st) p).
  - intros [= <- <-]. right. split; [done |]. split; [done |]. by eexists.
  - destruct creat; intros [= <- <-]; [| by left].
    right. split; [done |]. split; [done |]. by eexists.
Qed.


(** X17: a redirection whose [open] fails is dropped without a word.
    The result of [open] is not checked: when it is -1 (for [>] a
    directory as target, for [<] a missing file, to name two), the [dup2]
    calls on -1 fail in turn and the command, tokens [[0, count-2)], runs
    on the interpreter's own standard input and output, exactly as the
    plain line would. *)
Theorem failed_open_is_ignored fuel tokens st target :
  lookup resolve (tokens_get_token tokens 0) < 0 →
  is_contains_word tokens "|" = false →
  tokens_get_length tokens < BUF_SIZE →
  last tokens = Some target →
  os_fds st !! (-1) = None →
  (is_contains_word tokens ">" = true ∧
   (open resolve st (Some target) true O_WRONLY).1 < 0) ∨
  (is_contains_word tokens ">" = false ∧ is_contains_word tokens "<" = true ∧
   (open resolve st (Some target) false O_RDONLY).1 < 0) →
  run_line resolve fuel tokens st
  = Some (Returned 0
            (execute_program resolve st tokens 0 (size_sub (tokens_get_length tokens) 2)
               STDIN_FILENO STDOUT_FILENO)).
Proof.
  intros Hlook Hpipe Hlen Hlast Hneg Hcase.
  assert (Hmax : tokens_get_length tokens < SIZE_MAX1)
    by (unfold BUF_SIZE, SIZE_MAX1 in *; lia).
  assert (Hne : tokens ≠ []) by (intros ->; done).
  assert (Hfail : ∀ creat a, (open resolve st (Some target) creat a).1 < 0 →
                             open resolve st (Some target) creat a = (-1, st)).
  { intros creat a Hlt.
    destruct (open resolve st (Some target) creat a) as [fd st1] eqn:Hopen.
    destruct (open_cases _ _ _ _ _ _ Hopen) as [[-> ->] | (Hnn & _)]; [done |].
    simpl in Hlt. lia. }
  assert (Hchild : ∀ i o, (i = -1 ∧ o = STDOUT_FILENO) ∨ (i = STDIN_FILENO ∧ o = -1) →
            execute_program resolve st tokens 0 (size_sub (tokens_get_length tokens) 2) i o
            = execute_program resolve st tokens 0 (size_sub (tokens_get_length tokens) 2)
                STDIN_FILENO STDOUT_FILENO).
  { intros i o Hio. unfold execute_program. rewrite child_fds_plain.
    assert (child_fds st i o = os_fds st) as ->; [| done].
    unfold child_fds. destruct Hio as [[-> ->] | [-> ->]].
    - rewrite dup2_table_same. reflexivity.
    - rewrite dup2_table_same. reflexivity. }
  unfold run_line.
  destruct (Z.leb_spec 0 (lookup resolve (tokens_get_token tokens 0))); [lia |].
  rewrite Hpipe.
  destruct Hcase as [[Hgt Hbad] | (Hgt & Hlt & Hbad)].
  - rewrite Hgt. unfold redirect_out. rewrite last_token, Hlast by done.
    rewrite (Hfail _ _ Hbad).
    rewrite (Hchild STDIN_FILENO (-1)) by (by right).
    rewrite close_unopened; [done |]. by rewrite execute_program_fds.
  - rewrite Hgt, Hlt. unfold redirect_in. rewrite last_token, Hlast by done.
    rewrite (Hfail _ _ Hbad).
    assert (Hdup : dup2 st (-1) STDIN_FILENO = st).
    { unfold dup2, dup2_table. cbn [fd_desc]. apply set_fds_same. }
    rewrite Hdup, (Hchild (-1) STDOUT_FILENO) by (by left).
    rewrite close_unopened; [done |]. by rewrite execute_program_fds.
Qed.

End RedirectionFacts.

(** *** Lines with a redirection whose [open] succeeds *)

Section RedirectionLines.
Variable resolve : string → string → string.









End RedirectionLines.

(** *** What every line leaves alone *)

Lemma copy_loop_stable fuel : ∀ st src dst st',
  copy_loop fuel st src dst = Some st' → stable st st'.
Proof.
  induction fuel as [|fuel IH]; intros st src dst st' H; [done |].
  cbn [copy_loop] in H.
  pose proof (read_stable st src (Z.to_nat BUF_SIZE)) as Hr.
  destruct (read st src (Z.to_nat BUF_SIZE)) as [buf st1]. cbn [snd] in Hr.
  destruct buf as [|b buf].
  - by injection H as <-.
  - eapply stable_trans; [exact Hr |].
    eapply stable_trans; [apply write_stable | by eapply IH].
Qed.

Section Leaks.
Variable resolve : string → string → string.

Lemma stages_stable fuel tokens fi fo n : ∀ st slow fast st',
  stages resolve fuel n st tokens slow fast fi fo = Some st' → stable st st'.
Proof.
  induction n as [|n IH]; intros st slow fast st' H.
  - injection H as <-. apply stable_refl.
  - cbn [stages] in H.
    set (fast1 := scan_stage (length tokens) tokens fast) in *.
    set (sd := lseek0 (ftruncate0 (execute_program resolve (lseek0 st fi) tokens slow
                                     (size_sub fast1 slow) fi fo) fi) fo) in *.
    assert (Hsd : stable st sd).
    { eapply stable_trans; [apply lseek0_stable |].
      eapply stable_trans; [apply execute_program_stable |].
      eapply stable_trans; [apply ftruncate0_stable | apply lseek0_stable]. }
    destruct (copy_loop fuel sd fo fi) as [se|] eqn:Hcopy; [| done].
    cbn [mbind option_bind] in H.
    eapply stable_trans; [exact Hsd |].
    eapply stable_trans; [by eapply copy_loop_stable |].
    eapply stable_trans; [apply ftruncate0_stable | by eapply IH].
Qed.

Lemma close_opened st st1 st2 fd :
  (fd = -1 ∧ os_fds st1 = os_fds st) ∨
  (0 ≤ fd ∧ os_fds st !! fd = None ∧ ∃ d, os_fds st1 = <[fd := d]> (os_fds st)) →
  os_fds st !! (-1) = None →
  os_fds st2 = os_fds st1 →
  os_fds (close st2 fd) = os_fds st.
Proof.
  intros Hopen Hneg H2. cbn [close os_fds set_fds]. rewrite H2.
  destruct Hopen as [[-> ->] | (_ & Hfree & d & ->)].
  - by apply delete_id.
  - by apply delete_insert_id.
Qed.

(** A pipeline closes what it opened. *)
Lemma pipeline_fds fuel st tokens st' :
  os_fds st !! (-1) = None →
  pipeline resolve fuel st tokens = Some st' → os_fds st' = os_fds st.
Proof.
  intros Hneg. unfold pipeline.
  destruct (open resolve st (Some INPUT_FILE) true O_RDWR) as [fi st1] eqn:Hopen1.
  destruct (open resolve st1 (Some OUTPUT_FILE) true O_RDWR) as [fo st2] eqn:Hopen2.
  apply open_cases in Hopen1. apply open_cases in Hopen2.
  set (s3 := ftruncate0 (ftruncate0 st2 fi) fo).
  destruct (stages resolve fuel _ s3 tokens 0 0 fi fo) as [s4|] eqn:Hst; [| done].
  cbn [mbind option_bind].
  destruct (copy_loop fuel (lseek0 s4 fi) fi STDIN_FILENO) as [s6|] eqn:Hcopy; [| done].
  cbn [mbind option_bind]. intros [= <-].
  assert (H26 : os_fds s6 = os_fds st2).
  { rewrite (proj1 (copy_loop_stable _ _ _ _ _ Hcopy)).
    rewrite (proj1 (lseek0_stable s4 fi)).
    rewrite (proj1 (stages_stable _ _ _ _ _ _ _ _ _ Hst)).
    unfold s3. rewrite (proj1 (ftruncate0_stable _ fo)).
    apply ftruncate0_stable. }
  cbn [close os_fds set_fds]. rewrite H26.
  destruct Hopen1 as [[-> ->] | (Hnn1 & Hfree1 & d1 & Hfds1)];
    destruct Hopen2 as [[-> ->] | (Hnn2 & Hfree2 & d2 & Hfds2)].
  - by rewrite !(delete_id (os_fds st)) by done.
  - rewrite Hfds2. rewrite (delete_id _ (-1)) by (by rewrite lookup_insert_ne by lia).
    by apply delete_insert_id.
  - rewrite Hfds1, delete_insert_id by done. by apply delete_id.
  - rewrite Hfds2, Hfds1.
    assert (fo ≠ fi).
    { intros ->. rewrite Hfds1, lookup_insert_eq in Hfree2. done. }
    rewrite delete_insert_ne by done.
    rewrite (delete_insert_id _ fi) by done.
    rewrite delete_insert_id; [done |].
    rewrite Hfds1, lookup_insert_ne in Hfree2 by done. done.
Qed.

(** X18: a built-in wins over every operator.  When the first token is
    one of [?], [exit], [cd], [pwd], the line is handed to that handler
    whatever else it holds: bars and redirections are not looked at, no
    file is opened or created, no process is launched, and the
    interpreter's descriptors and descriptions stay as they were. *)
Theorem builtin_wins_over_operators fuel tokens st c :
  tokens_get_token tokens 0 = Some c →
  c ∈ builtin_names →
  ∃ e,
    cmd_table resolve !! Z.to_nat (lookup resolve (Some c)) = Some e ∧ cmd e = c ∧
    run_line resolve fuel tokens st = Some (fun_ e tokens st) ∧
    ∃ st', (fun_ e tokens st = Terminated 0 st' ∧ c = "exit" ∨
            fun_ e tokens st = Returned 1 st' ∧ c ≠ "exit") ∧
           os_fds st' = os_fds st ∧ os_descs st' = os_descs st ∧
           os_exes st' = os_exes st ∧
           dom (os_files st') = dom (os_files st).
Proof.
  intros H0 Hc.
  assert (Hwrite : ∀ s fd data, dom (os_files (write s fd data)) = dom (os_files s)).
  { intros s fd data. unfold write. destruct (fd_desc _ _) as [d|]; [| done].
    unfold desc_write. destruct data as [|b data]; [done |].
    destruct (os_descs s !! d) as [[[q | j | dq] rd []]|]; try done.
    - destruct (os_files s !! q) as [old|] eqn:E; [| done].
      cbn [os_files set_pos set_files]. by apply dom_insert_lookup_L.
    - by destruct (os_chans s !! j). }
  assert (Hexes : ∀ s fd data, os_exes (write s fd data) = os_exes s).
  { intros s fd data. unfold write. destruct (fd_desc _ _) as [d|]; [| done].
    apply desc_write_frame. }
  unfold builtin_names in Hc.
  repeat (apply elem_of_cons in Hc as [-> | Hc]); [| | | | by apply elem_of_nil in Hc].
  - eexists. split; [reflexivity |]. split; [reflexivity |].
    split; [unfold run_line; by rewrite H0 |].
    cbn [fun_ cmd_help]. eexists. split; [by right |].
    unfold printf.
    rewrite (foldl_write_concat (λ e, str (e.1 +:+ " - " +:+ e.2) ++ [newline])).
    split; [apply write_stable |]. split; [apply write_stable |].
    split; [apply Hexes | apply Hwrite].
  - eexists. split; [reflexivity |]. split; [reflexivity |].
    split; [unfold run_line; by rewrite H0 |].
    cbn [fun_ cmd_exit]. eexists. split; [by left |]. done.
  - eexists. split; [reflexivity |]. split; [reflexivity |].
    split; [unfold run_line; by rewrite H0 |].
    cbn [fun_ cmd_cd]. eexists. split; [by right |].
    unfold chdir. destruct (tokens_get_token tokens 1) as [p|]; [| done].
    by destruct (decide _).
  - eexists. split; [reflexivity |]. split; [reflexivity |].
    split; [unfold run_line; by rewrite H0 |].
    cbn [fun_ cmd_pwd]. eexists. split; [by right |].
    split; [apply write_stable |]. split; [apply write_stable |].
    split; [apply Hexes | apply Hwrite].
Qed.

(** X19: no line leaks a descriptor.  Whatever a line is and whatever its
    opens do, once it is through the interpreter's descriptor table is what
    it was before the line: every descriptor opened is closed again, failed
    opens included.  The one exception is a [<] line, which may leave
    descriptor 0 bound to another description. *)
Theorem no_descriptor_leak fuel tokens st r :
  os_fds st !! (-1) = None →
  run_line resolve fuel tokens st = Some r →
  let st' := match r with Returned _ s => s | Terminated _ s => s end in
  os_fds st' = os_fds st ∨
  (lookup resolve (tokens_get_token tokens 0) < 0 ∧
   is_contains_word tokens "|" = false ∧ is_contains_word tokens ">" = false ∧
   is_contains_word tokens "<" = true ∧
   ∃ d, os_fds st' = <[STDIN_FILENO := d]> (os_fds st)).
Proof.
  intros Hneg. revert r.
  intros r. cbv zeta. unfold run_line.
  destruct (Z.leb_spec 0 (lookup resolve (tokens_get_token tokens 0))) as [Hb | Hnb].
  - destruct (lookup_in_table resolve _ Hb) as [e He].
    rewrite He. cbn [mbind option_bind]. intros [= <-]. left.
    assert (Hin : e ∈ cmd_table resolve) by (by eapply list_elem_of_lookup_2).
    unfold cmd_table in Hin. cbn in Hin.
    repeat (apply elem_of_cons in Hin as [-> | Hin]); [| | | | by apply elem_of_nil in Hin];
      cbn [fun_ cmd_help cmd_exit cmd_cd cmd_pwd].
    + unfold printf.
      rewrite (foldl_write_concat (λ e, str (e.1 +:+ " - " +:+ e.2) ++ [newline])).
      apply write_stable.
    + done.
    + unfold chdir. destruct (tokens_get_token tokens 1); [| done]. by destruct (decide _).
    + apply write_stable.
  - destruct (is_contains_word tokens "|") eqn:Hpipe.
    { destruct (pipeline resolve fuel st tokens) as [s|] eqn:Hp; [| done].
      cbn [mbind option_bind]. intros [= <-]. left. by eapply pipeline_fds. }
    destruct (is_contains_word tokens ">") eqn:Hgt.
    { intros [= <-]. left. unfold redirect_out.
      destruct (open resolve st _ true O_WRONLY) as [filedes st1] eqn:Hopen.
      apply open_cases in Hopen.
      apply (close_opened st st1); [| done | apply execute_program_fds].
      destruct Hopen as [[-> ->] | ?]; [by left | by right]. }
    destruct (is_contains_word tokens "<") eqn:Hlt.
    2:{ intros [= <-]. left. apply execute_program_fds. }
    intros [= <-]. unfold redirect_in.
    destruct (open resolve st _ false O_RDONLY) as [filedes st1] eqn:Hopen.
    apply open_cases in Hopen.
    destruct Hopen as [[-> ->] | (Hnn & Hfree & d & Hfds)].
    + left. cbn [close os_fds set_fds]. rewrite execute_program_fds.
      unfold dup2, dup2_table. cbn [fd_desc os_fds set_fds]. by apply delete_id.
    + assert (Hfd : fd_desc (os_fds st1) filedes = Some d).
      { rewrite Hfds, fd_desc_nonneg by done. by rewrite lookup_insert_eq. }
      cbn [close os_fds set_fds]. rewrite execute_program_fds.
      unfold dup2, dup2_table. cbn [os_fds set_fds]. rewrite Hfd, Hfds.
      destruct (decide (filedes = STDIN_FILENO)) as [-> | Hne0].
      * left. rewrite insert_insert_eq. by apply delete_insert_id.
      * right. split; [done |]. split; [done |]. split; [done |]. split; [done |].
        exists d. rewrite delete_insert_ne by done. by rewrite delete_insert_id.
Qed.

End Leaks.

(** ** Further instances *)

Lemma help_prints_table_witness :
  ∃ st', run_line plain_resolve 0 ["?"; "more"] (demo_machine true [])
           = Some (Returned 1 st') ∧
         written st' 1 = help_text.
Proof.
  destruct (help_prints_table plain_resolve 0 ["?"; "more"] (demo_machine true []) eq_refl)
    as (Hrun & _).
  eexists. split; [exact Hrun | by vm_compute].
Defined.

Lemma cd_then_pwd_witness :
  ∃ st1 st2,
    run_line plain_resolve 0 ["cd"; "/home"] (set_cwd "/" (demo_machine true []))
      = Some (Returned 1 st1) ∧
    run_line plain_resolve 0 ["pwd"] st1 = Some (Returned 1 st2) ∧
    written st2 1 = str "/home" ++ [newline].
Proof.
  destruct (cd_then_pwd plain_resolve 0 ["cd"; "/home"] ["pwd"]
              (set_cwd "/" (demo_machine true [])) eq_refl eq_refl)
    as (st1 & Hcd & Hcwd & Hpwd).
  eexists st1, _. split; [exact Hcd |]. split; [exact Hpwd |].
  vm_compute in Hcd. injection Hcd as <-. by vm_compute.
Defined.

Lemma argv_is_token_range_witness :
  until_null (build_argv demo_pipeline 3 5) = ["tr"; "a-z"; "A-Z"].
Proof.
  etrans; [apply (argv_is_token_range demo_pipeline 3 5); by vm_compute | reflexivity].
Defined.

Lemma not_found_only_when_nothing_executes_witness :
  ∃ name pathstr,
    tokens_get_token ["nosuch"; "x"] 0 = Some name ∧
    os_path (demo_machine true []) = Some pathstr ∧
    0 = 0 ∧ not_found_line "nosuch" = not_found_line name ∧
    execv plain_resolve (demo_machine true []) name = None ∧
    ∀ q, q ∈ strtok_all pathstr →
         execv plain_resolve (demo_machine true []) (q +:+ "/" +:+ name) = None.
Proof.
  apply (not_found_only_when_nothing_executes plain_resolve (demo_machine true [])
           ["nosuch"; "x"] 0 2 0 (not_found_line "nosuch")).
  by vm_compute.
Defined.

Lemma launched_image_is_first_match_witness :
  ∃ name,
    tokens_get_token ["tr"; "a-z"; "A-Z"] 0 = Some name ∧
    ["tr"; "a-z"; "A-Z"] = until_null (build_argv ["tr"; "a-z"; "A-Z"] 0 3) ∧
    execv plain_resolve (demo_machine true []) "/usr/bin/tr" = Some tr ∧
    ("/usr/bin/tr" = name ∨
     execv plain_resolve (demo_machine true []) name = None ∧
     ∃ pathstr pre d post,
       os_path (demo_machine true []) = Some pathstr ∧
       strtok_all pathstr = pre ++ d :: post ∧
       "/usr/bin/tr" = d +:+ "/" +:+ name ∧
       ∀ q, q ∈ pre →
            execv plain_resolve (demo_machine true []) (q +:+ "/" +:+ name) = None).
Proof.
  apply (launched_image_is_first_match plain_resolve (demo_machine true [])
           ["tr"; "a-z"; "A-Z"] 0 3 "/usr/bin/tr" tr ["tr"; "a-z"; "A-Z"]).
  by vm_compute.
Defined.

Lemma end_of_input_exits_witness :
  main plain_resolve words 1 0 (demo_machine true [])
    = Some (0, main_start (demo_machine true [])) ∧
  prompts (main_start (demo_machine true [])) = [0] ∧
  written (machine (main_start (demo_machine true []))) 1 = prompt 0.
Proof.
  destruct (end_of_input_exits plain_resolve words 0 0 (demo_machine true []))
    as (Hmain & Hprompts & Hm).
  - right. exists 0%nat, 0%nat, true, true, (CHAN [] [] true). by vm_compute.
  - split; [exact Hmain |]. split; [exact Hprompts |]. by vm_compute.
Defined.

Lemma plain_command_uses_interpreter_streams_witness :
  ∃ st', run_line plain_resolve 0 ["cat"] (demo_machine false (str "data"))
           = Some (Returned 0 st') ∧
         (c_in <$> os_chans st' !! 0%nat) = Some [] ∧
         (c_out <$> os_chans st' !! 1%nat) = Some (str "data").
Proof.
  destruct (plain_command_uses_interpreter_streams plain_resolve 0 ["cat"]
              (demo_machine false (str "data")) "/bin/cat" cat ["cat"]
              0%nat 1%nat 0%nat 1%nat (CHAN (str "data") [] false) (CHAN [] [] false)
              false false)
    as (st' & Hrun & _ & Hin & Hout & _); try by vm_compute.
  exists st'. split; [exact Hrun |]. split; [exact Hin | exact Hout].
Defined.

Lemma input_redirection_feeds_interpreter_witness :
  ∃ st',
    run_line plain_resolve 0 ["cat"; "<"; "f"] (demo_with_file (str "data"))
      = Some (Returned 0 st') ∧
    loop_body plain_resolve words 0 true (CFG 1 [0; 1] 1 st')
      = Some (Halt 0 (CFG 1 [0; 1] 1 st')).
Proof.
  destruct (input_redirection_feeds_interpreter plain_resolve words 0 ["cat"; "<"; "f"]
              (demo_with_file (str "data")) "f" (str "data") "/bin/cat" cat ["cat"])
    as (st' & d & Hrun & _ & _ & _ & Hhalt).
  - by vm_compute.
  - by vm_compute.
  - by vm_compute.
  - by vm_compute.
  - by vm_compute.
  - by vm_compute.
  - reflexivity.
  - by vm_compute.
  - by apply demo_dirs_only_home.
  - reflexivity.
  - by eexists.
  - by eexists.
  - intros d' o Hd' Ho. vm_compute in Hd'. injection Hd' as <-.
    vm_compute in Ho. injection Ho as <-. done.
  - intros d' Hd'. vm_compute in Hd'. injection Hd' as <-. by eexists.
  - by vm_compute.
  - exists st'. split; [exact Hrun |].
    apply (Hhalt true (CFG 1 [0; 1] 1 st') eq_refl). simpl. lia.
Defined.

Lemma copy_loop_is_one_write_witness :
  ∃ st',
    copy_loop 5 (open plain_resolve (demo_with_file (str "data")) (Some "f") false O_RDONLY).2
      2 STDOUT_FILENO = Some st' ∧
    written st' 1 = str "data" ∧
    avail st' 2 = [].
Proof.
  set (st := (open plain_resolve (demo_with_file (str "data")) (Some "f") false O_RDONLY).2).
  destruct (copy_loop_is_one_write st 2 STDOUT_FILENO 2%nat "/home/f" false)
    as (st' & Hrun & _ & Hchans & _ & Hav & _).
  - reflexivity.
  - reflexivity.
  - intros d' o Hd' Ho. vm_compute in Hd'. injection Hd' as <-.
    vm_compute in Ho. injection Ho as <-. done.
  - exists st'. split; [apply Hrun; by vm_compute |]. split; [| exact Hav].
    unfold written. rewrite Hchans. by vm_compute.
Defined.


Lemma failed_open_is_ignored_witness :
  ∃ st',
    run_line plain_resolve 0 ["cat"; "<"; "missing"] (demo_machine true (str "typed"))
      = Some (Returned 0 st') ∧
    written st' 1 = str "typed" ∧
    os_fds st' = os_fds (demo_machine true (str "typed")).
Proof.
  eexists. split.
  - apply (failed_open_is_ignored plain_resolve 0 ["cat"; "<"; "missing"]
             (demo_machine true (str "typed")) "missing").
    + by vm_compute.
    + by vm_compute.
    + by vm_compute.
    + reflexivity.
    + reflexivity.
    + right. split; [by vm_compute |]. split; by vm_compute.
  - by vm_compute.
Defined.

Lemma builtin_wins_over_operators_witness :
  ∃ st',
    run_line plain_resolve 0 ["pwd"; "|"; "cat"; ">"; "f"] (demo_machine true [])
      = Some (Returned 1 st') ∧
    os_fds st' = os_fds (demo_machine true []) ∧
    dom (os_files st') = dom (os_files (demo_machine true [])).
Proof.
  destruct (builtin_wins_over_operators plain_resolve 0 ["pwd"; "|"; "cat"; ">"; "f"]
              (demo_machine true []) "pwd")
    as (e & He & _ & Hrun & st' & Hres & Hfds & _ & _ & Hdom).
  - reflexivity.
  - apply (bool_decide_unpack _). by vm_compute.
  - vm_compute in He. injection He as <-.
    destruct Hres as [[_ Hc] | [Hres _]]; [done |].
    exists st'. split; [by rewrite Hrun, Hres |]. by split.
Defined.

Lemma no_descriptor_leak_witness :
  ∃ st',
    run_line plain_resolve 4 demo_pipeline (demo_machine true []) = Some (Returned 0 st') ∧
    os_fds st' = os_fds (demo_machine true []).
Proof.
  destruct (run_line plain_resolve 4 demo_pipeline (demo_machine true []))
    as [[ret st' | status st']|] eqn:Hr; [| by vm_compute in Hr | by vm_compute in Hr].
  assert (ret = 0) as -> by (vm_compute in Hr; by injection Hr as <- _).
  exists st'. split; [done |].
  destruct (no_descriptor_leak plain_resolve 4 demo_pipeline (demo_machine true []) _
              eq_refl Hr) as [H | (_ & Hp & _)]; [exact H | by vm_compute in Hp].
Defined.


